(** * maxprotein: greedy versus exhaustive selection of foods

    A shallow embedding of [maxprotein.hh] and the verification of its
    specification.  The header selects, from a vector of foods, a subset that
    maximizes protein within a calorie budget, with a greedy heuristic
    ([greedy_max_protein]) and with an exhaustive search over bit masks
    ([exhaustive_max_protein]); [filter_food_vector] bounds the input of the
    search and [sum_food_vector] adds up calories and protein.

    Conventions of the embedding:
    - a C++ [int] is a [Z] in the range [INT_MIN .. INT_MAX]; [int] additions
      are written with their 32-bit two's complement wrap-around ([int_add]),
      and the narrowing of a size to [int] with [to_int];
    - a [FoodVector] (a vector of shared pointers to immutable foods) is the
      list of the foods pointed to; [size()] is the length of the list;
    - positions in a vector (the [counter]/[index] of the greedy scan and the
      [j] of the mask loop) are natural numbers; they agree with the [int]
      variables of the source for vectors of at most [INT_MAX] elements;
    - the [double] of the mask loop is IEEE 754 binary64: [pow(2, n)] is
      exact and a [uint64_t] is rounded to 53 significant bits when it is
      compared with it ([double_of_uint64]);
    - [assert] is modelled as a distinguished outcome ([AssertFail]); the
      mask loop carries fuel, which is shown to suffice
      ([mask_loop_returns]);
    - what [print_food_vector] writes to [std::cout] is the string it
      returns, with [std::endl] a line feed;
    - the loader reads its file from a file system given as a finite map
      from paths to contents; the conversion of a field to a number
      ([parse_mil], through a [double]) is a parameter of the loader, any
      function from the field to an optional [int]; a file with a line of
      fewer than 50 fields, on which the source reads [fields[49]] beyond
      the vector and has no defined behaviour, is marked [LoadUndefined]
      and left out of every statement. *)

From Stdlib Require Import ZArith String Ascii DecimalString.
From stdpp Require Import base list strings gmap.
From Equations Require Import Equations.

Local Open Scope Z_scope.

(** ** Machine integers *)

Module Int.

Definition INT_MIN : Z := - 2 ^ 31.
Definition INT_MAX : Z := 2 ^ 31 - 1.

(** The values an [int] variable can hold. *)
Definition in_range (z : Z) : Prop := INT_MIN <= z <= INT_MAX.

(** Conversion of a mathematical integer to [int] (32-bit two's
    complement): what a narrowing conversion and a wrapped result give. *)
Definition to_int (z : Z) : Z := (z + 2 ^ 31) mod 2 ^ 32 - 2 ^ 31.

(** [a + b] on [int]. *)
Definition int_add (a b : Z) : Z := to_int (a + b).

(** Conversion of an [int] to [size_t] (64-bit unsigned). *)
Definition to_size_t (z : Z) : Z := z mod 2 ^ 64.

(** [x++] on [uint64_t]. *)
Definition uint64_succ (z : Z) : Z := (z + 1) mod 2 ^ 64.

(** An upper bound on the number of elements of any vector
    ([PTRDIFF_MAX]: [max_size()] never exceeds it). *)
Definition PTRDIFF_MAX : Z := 2 ^ 63 - 1.

End Int.
Export Int.

(** ** Foods *)

(** [class Food]: the five private fields, read through the accessors. *)
Record Food : Type := mkFood {
  description : string;
  amount : string;
  amount_g : Z;
  kcal : Z;
  protein_g : Z
}.

(** The assertions of the constructor of [Food], and the range of its [int]
    fields. *)
Record Food_valid (f : Food) : Prop := {
  valid_description : description f <> ""%string;
  valid_amount : amount f <> ""%string;
  valid_amount_g : 0 <= amount_g f <= INT_MAX;
  valid_kcal : 0 <= kcal f <= INT_MAX;
  valid_protein_g : 0 <= protein_g f <= INT_MAX
}.

(** [typedef std::vector<std::shared_ptr<Food>> FoodVector]. *)
Abbreviation FoodVector := (list Food).

(** [size()] of a vector never exceeds [PTRDIFF_MAX]. *)
Definition fits_vector (v : FoodVector) : Prop :=
  Z.of_nat (length v) <= PTRDIFF_MAX.

(** ** [sum_food_vector] *)

(** One iteration of the loop of [sum_food_vector]: both accumulators are
    [int]s updated with [+=]. *)
Definition sum_step (acc : Z * Z) (food : Food) : Z * Z :=
  (int_add (fst acc) (kcal food), int_add (snd acc) (protein_g food)).

(** [sum_food_vector(total_kcal, total_protein_g, foods)]: the two reference
    arguments are returned as a pair [(total_kcal, total_protein_g)]. *)
Definition sum_food_vector (foods : FoodVector) : Z * Z :=
  fold_left sum_step foods (0, 0).

(** Exact (unbounded) totals, to state that no accumulation overflows. *)
Definition kcal_total (foods : FoodVector) : Z :=
  foldr (fun food acc => kcal food + acc) 0 foods.

Definition protein_total (foods : FoodVector) : Z :=
  foldr (fun food acc => protein_g food + acc) 0 foods.

(** The sums over the whole vector fit an [int]: then no partial sum over a
    part of it overflows either. *)
Definition sums_fit (foods : FoodVector) : Prop :=
  kcal_total foods <= INT_MAX /\ protein_total foods <= INT_MAX.

(** Componentwise [int] addition of two results of [sum_food_vector]. *)
Definition pair_add (a b : Z * Z) : Z * Z :=
  (int_add (fst a) (fst b), int_add (snd a) (snd b)).

(** ** [filter_food_vector] *)

(** The condition of the [if] in the loop of [filter_food_vector].  In
    [result->size() != total_size] the [int] is converted to [size_t]. *)
Definition filter_keeps (min_kcal max_kcal total_size : Z)
    (result : FoodVector) (food : Food) : bool :=
  (min_kcal <? kcal food) && (kcal food <=? max_kcal)
  && negb (Z.of_nat (length result) =? to_size_t total_size).

Definition filter_step (min_kcal max_kcal total_size : Z)
    (result : FoodVector) (food : Food) : FoodVector :=
  if filter_keeps min_kcal max_kcal total_size result food
  then result ++ [food]
  else result.

Definition filter_food_vector (source : FoodVector)
    (min_kcal max_kcal total_size : Z) : FoodVector :=
  fold_left (filter_step min_kcal max_kcal total_size) source [].

(** The calorie test of the filter as a decidable proposition, for [filter]
    and [Forall]. *)
Definition within_kcal (min_kcal max_kcal : Z) (food : Food) : Prop :=
  min_kcal < kcal food /\ kcal food <= max_kcal.

#[global] Instance within_kcal_dec min_kcal max_kcal food :
  Decision (within_kcal min_kcal max_kcal food).
Proof. unfold within_kcal. apply _. Defined.

(** ** [greedy_max_protein] *)

(** The food the scan starts from: [new Food(" ", " ", 0, 0, 0)]. *)
Definition placeholder : Food := mkFood " " " " 0 0 0.

(** The variables of the inner [for] loop: the best food so far [f], its
    position [index], and the position [counter] of the food looked at. *)
Record scan : Type := mkScan {
  scan_f : Food;
  scan_index : nat;
  scan_counter : nat
}.

(** One iteration of the inner loop: a food replaces [f] on strictly
    greater protein only. *)
Definition scan_step (s : scan) (food : Food) : scan :=
  if protein_g (scan_f s) <? protein_g food
  then mkScan food (scan_counter s) (S (scan_counter s))
  else mkScan (scan_f s) (scan_index s) (S (scan_counter s)).

(** The inner loop over [todo], from [f = placeholder], [index = 0],
    [counter = 0]. *)
Definition scan_todo (todo : FoodVector) : scan :=
  fold_left scan_step todo (mkScan placeholder 0 0).

(** The variables of the outer [while] loop. *)
Record greedy_state : Type := mkGreedy {
  todo : FoodVector;
  result : FoodVector;
  result_cal : Z
}.

(** The body of the [while] loop: scan, [todo.erase(todo.begin() + index)],
    then push [f] when it fits the budget. *)
Definition greedy_body (total_kcal : Z) (st : greedy_state) : greedy_state :=
  let s := scan_todo (todo st) in
  let todo' := delete (scan_index s) (todo st) in
  if int_add (result_cal st) (kcal (scan_f s)) <=? total_kcal
  then mkGreedy todo' (result st ++ [scan_f s])
                (int_add (result_cal st) (kcal (scan_f s)))
  else mkGreedy todo' (result st) (result_cal st).

(** [while (!todo.empty()) body]: recursion on the size of [todo], which the
    body decreases. *)
Equations? greedy_loop (total_kcal : Z) (st : greedy_state) : greedy_state
  by wf (length (todo st)) lt :=
greedy_loop total_kcal (mkGreedy [] r c) := mkGreedy [] r c;
greedy_loop total_kcal (mkGreedy (x :: t) r c) :=
  greedy_loop total_kcal (greedy_body total_kcal (mkGreedy (x :: t) r c)).
Proof.
  assert (Hscan : forall (l : FoodVector) (s : scan),
             (scan_index s < scan_counter s + length l)%nat ->
             (scan_index (fold_left scan_step l s)
              < scan_counter s + length l)%nat).
  { induction l as [|y l IH]; intros s Hs; simpl in *; [lia|].
    unfold scan_step at 2. destruct (_ <? _).
    - specialize (IH (mkScan y (scan_counter s) (S (scan_counter s)))).
      simpl in IH. lia.
    - specialize (IH (mkScan (scan_f s) (scan_index s) (S (scan_counter s)))).
      simpl in IH. lia. }
  specialize (Hscan (x :: t) (mkScan placeholder 0 0)). simpl in Hscan.
  assert (Hlen : length (delete (scan_index (scan_todo (x :: t))) (x :: t))
                 = length t).
  { rewrite length_delete; [simpl; lia|].
    apply lookup_lt_is_Some. simpl. apply Hscan. lia. }
  unfold greedy_body. simpl todo. destruct (_ <=? _); simpl; lia.
Qed.

Definition greedy_max_protein (foods : FoodVector) (total_kcal : Z)
  : FoodVector :=
  result (greedy_loop total_kcal (mkGreedy foods [] 0)).

(** ** [exhaustive_max_protein] *)

(** The value of a [uint64_t] converted to [double] (IEEE 754 binary64,
    rounding to nearest, ties to even): integers below [2^53] are exact,
    larger ones keep their 53 leading bits. *)
Definition double_of_uint64 (b : Z) : Z :=
  if b <? 2 ^ 53 then b
  else
    let sh := Z.log2 b - 52 in
    let q := Z.shiftr b sh in
    let r := Z.land b (Z.ones sh) in
    let half := Z.shiftl 1 (sh - 1) in
    if (r <? half) || ((r =? half) && Z.even q)
    then Z.shiftl q sh
    else Z.shiftl (q + 1) sh.

(** The test [bits < power] of the outer loop, with [power = pow(2, n)] a
    [double]: [2^n] is exact for every [int] [0 <= n < 64]; for a negative
    [n] (a size that does not fit an [int] narrows to one) it lies strictly
    between 0 and 1, above [bits = 0] only, down to the least positive
    [double] [2^-1074], and is 0 below. *)
Definition bits_lt_power (n bits : Z) : bool :=
  if n <? -1074 then false
  else if n <? 0 then bits =? 0
  else double_of_uint64 bits <? 2 ^ n.

(** One iteration of the inner loop [for (j = 0; j < n; j++)]. *)
Definition candidate_step (foods : FoodVector) (bits : Z)
    (candidate : FoodVector) (j : nat) : FoodVector :=
  if Z.land (Z.shiftr bits (Z.of_nat j)) 1 =? 1
  then match foods !! j with
       | Some food => candidate ++ [food]
       | None => candidate
       end
  else candidate.

(** The candidate subset of a mask. *)
Definition make_candidate (foods : FoodVector) (n bits : Z) : FoodVector :=
  fold_left (candidate_step foods bits) (seq 0 (Z.to_nat n)) [].

(** [v.empty()]. *)
Definition vector_empty (v : FoodVector) : bool :=
  match v with
  | [] => true
  | _ :: _ => false
  end.

(** The body of the outer loop: the new value of [best]. *)
Definition mask_body (foods : FoodVector) (n total_kcal : Z)
    (best : FoodVector) (bits : Z) : FoodVector :=
  let candidate := make_candidate foods n bits in
  let '(cand_calories, cand_protein) := sum_food_vector candidate in
  let '(best_calories, best_protein) := sum_food_vector best in
  if cand_calories <=? total_kcal
  then if vector_empty best || (best_protein <? cand_protein)
       then candidate
       else best
  else best.

(** [for (uint64_t bits = 0; bits < power; bits++) body], with fuel: [None]
    when the fuel runs out before the test fails, otherwise the final [bits]
    and [best]. *)
Fixpoint mask_loop (fuel : nat) (foods : FoodVector) (n total_kcal : Z)
    (bits : Z) (best : FoodVector) : option (Z * FoodVector) :=
  match fuel with
  | O => None
  | S fuel' =>
      if bits_lt_power n bits
      then mask_loop fuel' foods n total_kcal (uint64_succ bits)
                     (mask_body foods n total_kcal best bits)
      else Some (bits, best)
  end.

(** Fuel for [2^n] iterations and the failing test that ends them. *)
Definition mask_fuel (n : Z) : nat := S (S (Z.to_nat (2 ^ n))).

Inductive outcome : Type :=
| AssertFail
| OutOfFuel
| Returned (best : FoodVector).

(** [const int n = foods.size(); assert(n < 64);] then the loop. *)
Definition exhaustive_max_protein (foods : FoodVector) (total_kcal : Z)
  : outcome :=
  let n := to_int (Z.of_nat (length foods)) in
  if n <? 64
  then match mask_loop (mask_fuel n) foods n total_kcal 0 [] with
       | Some (_, best) => Returned best
       | None => OutOfFuel
       end
  else AssertFail.

(** ** [print_food_vector] *)

(** What [operator<<] writes for an [int]: its decimal digits, after a
    minus sign when it is negative. *)
Definition put_int (z : Z) : string := NilZero.string_of_int (Z.to_int z).

(** What the body of the loop writes for a food, before [std::endl]. *)
Definition food_line (food : Food) : string :=
  (description food ++ " (100 g where each " ++ amount food
   ++ " is " ++ put_int (amount_g food) ++ " g)"
   ++ " kcal=" ++ put_int (kcal food)
   ++ " protein=" ++ put_int (protein_g food) ++ " g")%string.

(** What is written after the loop, before [std::endl], for the sums
    [sum_food_vector] returns. *)
Definition total_line (foods : FoodVector) : string :=
  let '(total_kcal, total_protein_g) := sum_food_vector foods in
  ("total kcal=" ++ put_int total_kcal
   ++ " total_protein=" ++ put_int total_protein_g ++ " g")%string.

(** [print_food_vector(foods)]: the characters written to [std::cout]. *)
Definition print_food_vector (foods : FoodVector) : string :=
  (fold_left (fun out food => (out ++ food_line food ++ String "010" "")%string)
             foods EmptyString
   ++ total_line foods ++ String "010" "")%string.

(** ** [load_usda_abbrev] *)

(** The constructor of [Food] with its assertions: [None] when one fails. *)
Definition new_Food (description amount : string)
    (amount_g kcal protein_g : Z) : option Food :=
  if negb (String.length description =? 0)%nat
     && negb (String.length amount =? 0)%nat
     && (0 <=? amount_g) && (0 <=? kcal) && (0 <=? protein_g)
  then Some (mkFood description amount amount_g kcal protein_g)
  else None.

(** What [std::getline(stream, field, delim)] extracts from a stream that
    is not exhausted: the characters before the first delimiter, which is
    consumed, or all of them; and what is left in the stream. *)
Fixpoint read_until (delim : ascii) (s : string) : string * string :=
  match s with
  | EmptyString => (EmptyString, EmptyString)
  | String c s' =>
      if Ascii.eqb c delim then (EmptyString, s')
      else let '(field, rest) := read_until delim s' in (String c field, rest)
  end.

(** [for (std::string field; std::getline(stream, field, delim); )
    fields.push_back(field);] on a stream holding [s]: [getline] fails on an
    exhausted stream, which ends the loop. *)
Equations? getline_all (delim : ascii) (s : string) : list string
  by wf (String.length s) lt :=
getline_all delim EmptyString := [];
getline_all delim (String c s') :=
  fst (read_until delim (String c s'))
  :: getline_all delim (snd (read_until delim (String c s'))).
Proof.
  assert (Hrest : forall t, (String.length (snd (read_until delim t))
                             <= String.length t)%nat).
  { induction t as [|d t IH]; simpl; [lia|].
    destruct (Ascii.eqb d delim); simpl; [lia|].
    destruct (read_until delim t). simpl in *. lia. }
  specialize (Hrest s'). destruct (Ascii.eqb c delim); simpl; [lia|].
  destruct (read_until delim s'). simpl in *. lia.
Qed.

(** The lambda [remove_tildes]: the field without its first and last
    character when it has at least three characters and these two are
    tildes; [None] stands for [false]. *)
Definition remove_tildes (field : string) : option string :=
  if (String.length field <? 3)%nat
     || negb (bool_decide (String.get 0 field = Some "~"%char))
     || negb (bool_decide
                (String.get (String.length field - 1) field = Some "~"%char))
  then None
  else Some (substring 1 (String.length field - 2) field).

(** The outcomes of the loader: [nullptr], a failed assertion of the
    constructor of [Food], or the vector loaded.  [LoadUndefined] is not an
    outcome of the program: it marks a file on which the source has no
    defined behaviour, because a line of fewer than 50 fields makes it read
    [fields[49]] (unchecked) beyond the fields of the line.  A build may
    skip such a line, stop or do anything else; the model does not follow
    the run from there, and nothing is stated about what the program does
    on such a file. *)
Inductive load_outcome : Type :=
| LoadFailure
| LoadAbort
| LoadUndefined
| Loaded (foods : FoodVector).

Section Loader.

(** The lambda [parse_mil]: the field read as a [double] and rounded to an
    [int], [None] when the read fails. *)
Variable parse_mil : string -> option Z.

(** The body of the loop over the lines of the file, for one line and the
    foods loaded so far. *)
Definition load_line (line : string) (result : FoodVector) : load_outcome :=
  let fields := getline_all "^" line in
  if (53 <? length fields)%nat then LoadFailure
  else
    match fields !! 1%nat, fields !! 3%nat, fields !! 4%nat,
          fields !! 48%nat, fields !! 49%nat with
    | Some descr_field, Some kcal_field, Some protein_g_field,
      Some amount_g_field, Some amount_field =>
        match remove_tildes descr_field with
        | None => Loaded result
        | Some description =>
        match remove_tildes amount_field with
        | None => Loaded result
        | Some amount =>
        match parse_mil amount_g_field with
        | None => Loaded result
        | Some amount_g =>
        match parse_mil kcal_field with
        | None => Loaded result
        | Some kcal =>
        match parse_mil protein_g_field with
        | None => Loaded result
        | Some protein_g =>
        match new_Food description amount amount_g kcal protein_g with
        | Some food => Loaded (result ++ [food])
        | None => LoadAbort
        end end end end end end
    | _, _, _, _, _ => LoadUndefined
    end.

(** The loop over the lines: it ends at the first line that does not leave
    a vector ([return failure], a failed assertion), and is followed no
    further than a line on which the behaviour of the source is undefined. *)
Fixpoint load_lines (lines : list string) (result : FoodVector)
  : load_outcome :=
  match lines with
  | [] => Loaded result
  | line :: lines' =>
      match load_line line result with
      | Loaded result' => load_lines lines' result'
      | stop => stop
      end
  end.

(** [load_usda_abbrev(path)] in a file system [fs]: a path that does not
    open gives [nullptr]. *)
Definition load_usda_abbrev (fs : gmap string string) (path : string)
  : load_outcome :=
  match fs !! path with
  | None => LoadFailure
  | Some content => load_lines (getline_all "010" content) []
  end.

End Loader.

(** ** Auxiliary definitions of the proofs *)

(** The sub-sequence of a vector that a mask selects, by recursion on the
    vector: the lowest bit decides on the first food.  [make_candidate]
    computes it ([make_candidate_select]). *)
Fixpoint select (bits : Z) (l : FoodVector) : FoodVector :=
  match l with
  | [] => []
  | x :: l' =>
      if Z.odd bits then x :: select (Z.div2 bits) l'
      else select (Z.div2 bits) l'
  end.

(** The value of [best] after the masks [0 .. K - 1]. *)
Definition best_upto (foods : FoodVector) (total_kcal K : Z) : FoodVector :=
  fold_left (mask_body foods (Z.of_nat (length foods)) total_kcal)
            (seqZ 0 K) [].

(** A mask is feasible when the calories of its candidate, as
    [sum_food_vector] adds them, are within the budget. *)
Definition feasible (foods : FoodVector) (total_kcal m : Z) : Prop :=
  fst (sum_food_vector (make_candidate foods (Z.of_nat (length foods)) m))
  <= total_kcal.

(** The protein of the candidate of a mask, as [sum_food_vector] adds it. *)
Definition mask_protein (foods : FoodVector) (m : Z) : Z :=
  snd (sum_food_vector (make_candidate foods (Z.of_nat (length foods)) m)).

(** What the loop has tracked after the masks below [K]: nothing while no
    non-empty candidate was feasible, otherwise the first feasible non-empty
    candidate of greatest protein. *)
Definition tracked (foods : FoodVector) (total_kcal K : Z)
    (best : FoodVector) : Prop :=
  (best = [] /\ forall m, 1 <= m < K -> ~ feasible foods total_kcal m)
  \/ exists m,
       1 <= m < K
       /\ best = make_candidate foods (Z.of_nat (length foods)) m
       /\ feasible foods total_kcal m
       /\ (forall m', 1 <= m' < K -> feasible foods total_kcal m' ->
             mask_protein foods m' <= mask_protein foods m)
       /\ (forall m', 1 <= m' < m -> feasible foods total_kcal m' ->
             mask_protein foods m' < mask_protein foods m).

(** The fields of a line written back, each followed by the delimiter. *)
Definition join_terminated (delim : ascii) (fields : list string) : string :=
  foldr (fun field acc => (field ++ String delim acc)%string)
        EmptyString fields.

(** Whether a character occurs in a string. *)
Fixpoint contains (c : ascii) (s : string) : bool :=
  match s with
  | EmptyString => false
  | String d s' => Ascii.eqb d c || contains c s'
  end.

(** What the scan of the greedy selector knows after the foods [seen]: no
    food seen has more protein than [f], the foods before [index] have
    less, and [f] is the placeholder, with [index = 0], or the food at
    [index], with protein. *)
Definition scan_inv (seen : FoodVector) (s : scan) : Prop :=
  (forall x, x ∈ seen -> protein_g x <= protein_g (scan_f s))
  /\ (forall j x, (j < scan_index s)%nat -> seen !! j = Some x ->
        protein_g x < protein_g (scan_f s))
  /\ ((scan_f s = placeholder /\ scan_index s = 0%nat)
      \/ (seen !! scan_index s = Some (scan_f s)
          /\ 0 < protein_g (scan_f s))).

(** A food whose texts hold no line feed. *)
Definition one_line (food : Food) : Prop :=
  contains "010" (description food) = false
  /\ contains "010" (amount food) = false.

(** A vector in order of non-increasing protein. *)
Definition protein_ordered (l : FoodVector) : Prop :=
  forall i j x y, (i < j)%nat -> l !! i = Some x -> l !! j = Some y ->
    protein_g y <= protein_g x.

(** The fields the body of the loop of the loader reads from a line:
    description, calories, protein, grams and amount. *)
Definition line_fields (line : string) (d k p g a : string) : Prop :=
  getline_all "^" line !! 1%nat = Some d
  /\ getline_all "^" line !! 3%nat = Some k
  /\ getline_all "^" line !! 4%nat = Some p
  /\ getline_all "^" line !! 48%nat = Some g
  /\ getline_all "^" line !! 49%nat = Some a.

(** ** Example data *)

Definition oats : Food := mkFood "oats" "1 cup" 81 307 11.
Definition water : Food := mkFood "water" "1 cup" 237 0 0.
Definition egg : Food := mkFood "egg" "1 large" 50 72 6.
Definition pantry : FoodVector := [oats; water; egg].

(** The scenario of the specification: three items and a budget of 400. *)
Definition item1 : Food := mkFood "item1" "1 serving" 100 200 20.
Definition item2 : Food := mkFood "item2" "1 serving" 100 300 25.
Definition item3 : Food := mkFood "item3" "1 serving" 100 150 10.
Definition scenario : FoodVector := [item1; item2; item3].

(** A food with calories and no protein. *)
Definition broth : Food := mkFood "broth" "1 cup" 240 10 0.

(** Two valid foods whose calories do not add up within an [int]. *)
Definition tallow : Food := mkFood "tallow" "1 vat" 100 2147483647 1.
Definition crumb : Food := mkFood "crumb" "1 crumb" 1 1 1.

(** A parser of unsigned decimal numbers that fit an [int], to instantiate
    the parameter of the loader in examples. *)
Fixpoint parse_digits (acc : Z) (s : string) : option Z :=
  match s with
  | EmptyString => Some acc
  | String c s' =>
      match Ascii.is_nat c with
      | Some d => parse_digits (10 * acc + Z.of_nat d) s'
      | None => None
      end
  end.

Definition parse_decimal (s : string) : option Z :=
  match s with
  | EmptyString => None
  | _ => match parse_digits 0 s with
         | Some z => if z <=? INT_MAX then Some z else None
         | None => None
         end
  end.

(** A line of 53 fields in the format of the database, a line whose amount
    is missing, a line of 54 fields, and a file system holding the first
    two. *)
Definition butter_fields : list string :=
  ["~01001~"; "~BUTTER,WITH SALT~"; "15"; "717"; "1"]
  ++ replicate 43 "0" ++ ["5"; "~1 pat~"; "14"; "~1 tbsp~"; "0"].

Definition nameless_fields : list string :=
  ["~01002~"; "~BUTTER,WHIPPED~"; "15"; "717"; "1"]
  ++ replicate 43 "0" ++ ["5"; "~~"; "14"; "~1 tbsp~"; "0"].

Definition butter_line : string := join_terminated "^" butter_fields.
Definition nameless_line : string := join_terminated "^" nameless_fields.
Definition wide_line : string :=
  join_terminated "^" (butter_fields ++ ["0"]).

Definition sample_fs : gmap string string :=
  {[ "ABBREV.txt" := join_terminated "010" [butter_line; nameless_line] ]}.

(** * Properties *)

(** Bounds of machine integers, by linear arithmetic. *)
Ltac int_lia :=
  unfold in_range, fits_vector, INT_MIN, INT_MAX, PTRDIFF_MAX in *; lia.

(** The assertions of the constructor, for a food given by its fields. *)
Ltac valid_food := split; simpl; unfold INT_MAX; try lia; discriminate.

(** ** Machine integers *)

Section IntFacts.

Lemma to_int_id z : in_range z -> to_int z = z.
Proof.
  unfold in_range, INT_MIN, INT_MAX, to_int. intros Hz.
  rewrite Z.mod_small; lia.
Qed.

Lemma to_int_in_range z : in_range (to_int z).
Proof.
  unfold in_range, INT_MIN, INT_MAX, to_int.
  pose proof (Z.mod_pos_bound (z + 2 ^ 31) (2 ^ 32)). lia.
Qed.

Lemma to_int_add_l a b : to_int (to_int a + b) = to_int (a + b).
Proof.
  unfold to_int. f_equal.
  replace ((a + 2 ^ 31) mod 2 ^ 32 - 2 ^ 31 + b + 2 ^ 31)
    with ((a + 2 ^ 31) mod 2 ^ 32 + b) by lia.
  rewrite Zplus_mod_idemp_l. f_equal. lia.
Qed.

Lemma to_int_add_r a b : to_int (a + to_int b) = to_int (a + b).
Proof. rewrite (Z.add_comm a), to_int_add_l. f_equal. lia. Qed.

Lemma to_size_t_nonneg z : 0 <= z <= INT_MAX -> to_size_t z = z.
Proof.
  unfold to_size_t, INT_MAX. intros Hz. apply Z.mod_small. lia.
Qed.

Lemma to_size_t_neg z : INT_MIN <= z < 0 -> to_size_t z = 2 ^ 64 + z.
Proof.
  unfold to_size_t, INT_MIN. intros Hz.
  symmetry. apply (Z.mod_unique_pos _ _ (-1)); lia.
Qed.

End IntFacts.

(** ** The aggregator *)

Section Aggregator.

Lemma kcal_total_app a b : kcal_total (a ++ b) = kcal_total a + kcal_total b.
Proof. induction a as [|x a IH]; simpl; lia. Qed.

Lemma protein_total_app a b :
  protein_total (a ++ b) = protein_total a + protein_total b.
Proof. induction a as [|x a IH]; simpl; lia. Qed.

(** The loop of [sum_food_vector] from any [int] accumulators. *)
Lemma fold_sum_step foods acc :
  in_range (fst acc) -> in_range (snd acc) ->
  fold_left sum_step foods acc
  = (to_int (fst acc + kcal_total foods),
     to_int (snd acc + protein_total foods)).
Proof.
  revert acc. induction foods as [|x foods IH]; intros [k p] Hk Hp; simpl in *.
  - rewrite !Z.add_0_r, !to_int_id; auto.
  - rewrite IH; simpl; unfold int_add; auto using to_int_in_range.
    rewrite !to_int_add_l. f_equal; f_equal; lia.
Qed.

(** [sum_food_vector] computes the exact totals modulo the [int] range. *)
Lemma sum_food_vector_wrap foods :
  sum_food_vector foods
  = (to_int (kcal_total foods), to_int (protein_total foods)).
Proof.
  unfold sum_food_vector. rewrite fold_sum_step; simpl; auto.
  all: int_lia.
Qed.

Lemma kcal_total_nonneg foods : Forall Food_valid foods -> 0 <= kcal_total foods.
Proof.
  induction 1 as [|x l [_ _ _ Hk _] _ IH]; simpl; lia.
Qed.

Lemma protein_total_nonneg foods :
  Forall Food_valid foods -> 0 <= protein_total foods.
Proof.
  induction 1 as [|x l [_ _ _ _ Hp] _ IH]; simpl; lia.
Qed.

(** Without overflow the aggregator returns the exact totals. *)
Lemma sum_food_vector_exact foods :
  Forall Food_valid foods -> sums_fit foods ->
  sum_food_vector foods = (kcal_total foods, protein_total foods).
Proof.
  intros Hv [Hk Hp]. rewrite sum_food_vector_wrap.
  pose proof (kcal_total_nonneg _ Hv). pose proof (protein_total_nonneg _ Hv).
  rewrite !to_int_id; auto; int_lia.
Qed.

End Aggregator.

Lemma pair_add_assoc x y z :
  pair_add (pair_add x y) z = pair_add x (pair_add y z).
Proof.
  unfold pair_add, int_add. simpl.
  rewrite !to_int_add_l, !to_int_add_r. f_equal; f_equal; lia.
Qed.

Lemma sum_food_vector_in_range foods :
  in_range (fst (sum_food_vector foods))
  /\ in_range (snd (sum_food_vector foods)).
Proof.
  rewrite sum_food_vector_wrap. simpl. split; apply to_int_in_range.
Qed.

(** C8: [sum_food_vector] is a monoid homomorphism from food vectors under
    concatenation to pairs of [int]s under componentwise [int] addition
    (associative, with unit (0, 0) on pairs of [int]s): the empty vector
    sums to (0, 0), a singleton to the food's own calories and protein, and
    a concatenation to the componentwise sum of the two sums (which is the
    exact componentwise sum when the totals fit an [int]). *)
Theorem sum_food_vector_monoid_hom :
  sum_food_vector [] = (0, 0)
  /\ (forall f, Food_valid f -> sum_food_vector [f] = (kcal f, protein_g f))
  /\ (forall a b,
        sum_food_vector (a ++ b)
        = pair_add (sum_food_vector a) (sum_food_vector b))
  /\ (forall a b,
        Forall Food_valid (a ++ b) -> sums_fit (a ++ b) ->
        sum_food_vector (a ++ b)
        = (fst (sum_food_vector a) + fst (sum_food_vector b),
           snd (sum_food_vector a) + snd (sum_food_vector b)))
  /\ (forall x y z, pair_add (pair_add x y) z = pair_add x (pair_add y z))
  /\ (forall a,
        pair_add (0, 0) (sum_food_vector a) = sum_food_vector a
        /\ pair_add (sum_food_vector a) (0, 0) = sum_food_vector a).
Proof.
  split; [reflexivity|]. split; [|split; [|split; [|split]]].
  - intros f [_ _ _ Hk Hp]. rewrite sum_food_vector_wrap. simpl.
    rewrite !Z.add_0_r, !to_int_id; auto; int_lia.
  - intros a b. rewrite !sum_food_vector_wrap. unfold pair_add, int_add. simpl.
    rewrite kcal_total_app, protein_total_app.
    now rewrite !to_int_add_l, !to_int_add_r.
  - intros a b Hv [Hk Hp].
    rewrite kcal_total_app in Hk. rewrite protein_total_app in Hp.
    apply Forall_app in Hv as [Ha Hb].
    pose proof (kcal_total_nonneg _ Ha). pose proof (kcal_total_nonneg _ Hb).
    pose proof (protein_total_nonneg _ Ha).
    pose proof (protein_total_nonneg _ Hb).
    rewrite !sum_food_vector_wrap. simpl.
    rewrite kcal_total_app, protein_total_app.
    rewrite !to_int_id; auto; int_lia.
  - apply pair_add_assoc.
  - intros a. destruct (sum_food_vector_in_range a) as [Hk Hp].
    destruct (sum_food_vector a) as [k p]. unfold pair_add, int_add.
    simpl in *. rewrite !Z.add_0_r, !to_int_id; auto.
Qed.

(** ** The filter *)

Section Filter.

Variables min_kcal max_kcal total_size : Z.

Lemma filter_step_keep result food :
  within_kcal min_kcal max_kcal food ->
  Z.of_nat (length result) <> to_size_t total_size ->
  filter_step min_kcal max_kcal total_size result food = result ++ [food].
Proof.
  intros [H1 H2] Hsz. unfold filter_step, filter_keeps.
  destruct (Z.ltb_spec min_kcal (kcal food)); [|lia].
  destruct (Z.leb_spec (kcal food) max_kcal); [|lia].
  destruct (Z.eqb_spec (Z.of_nat (length result)) (to_size_t total_size));
    [lia|reflexivity].
Qed.

Lemma filter_step_full result food :
  Z.of_nat (length result) = to_size_t total_size ->
  filter_step min_kcal max_kcal total_size result food = result.
Proof.
  intros Hsz. unfold filter_step, filter_keeps.
  rewrite Hsz, Z.eqb_refl, andb_false_r. reflexivity.
Qed.

Lemma filter_step_skip result food :
  ~ within_kcal min_kcal max_kcal food ->
  filter_step min_kcal max_kcal total_size result food = result.
Proof.
  intros Hn. unfold filter_step, filter_keeps.
  destruct (Z.ltb_spec min_kcal (kcal food)); [|reflexivity].
  destruct (Z.leb_spec (kcal food) max_kcal); [|reflexivity].
  exfalso. apply Hn. split; lia.
Qed.

(** With a limit that is a size, the loop appends the matches of the rest of
    the source until the result holds [total_size] foods. *)
Lemma filter_fold_limit source result :
  0 <= total_size <= INT_MAX ->
  Z.of_nat (length result) <= total_size ->
  fold_left (filter_step min_kcal max_kcal total_size) source result
  = result ++ take (Z.to_nat total_size - length result)
                   (filter (within_kcal min_kcal max_kcal) source).
Proof.
  intros Hts. pose proof (to_size_t_nonneg _ Hts) as Hsz.
  revert result. induction source as [|x source IH]; intros result Hlen; simpl.
  - now rewrite filter_nil, take_nil, app_nil_r.
  - rewrite filter_cons. destruct (decide (within_kcal min_kcal max_kcal x)).
    + destruct (Z.eq_dec (Z.of_nat (length result)) total_size) as [Heq|Hne].
      * rewrite filter_step_full by lia. rewrite IH by lia.
        replace (Z.to_nat total_size - length result)%nat with 0%nat by lia.
        reflexivity.
      * rewrite filter_step_keep by (auto; lia).
        rewrite IH by (rewrite length_app; simpl; lia).
        rewrite length_app. simpl.
        replace (Z.to_nat total_size - length result)%nat
          with (S (Z.to_nat total_size - (length result + 1)))%nat by lia.
        simpl. now rewrite <- app_assoc.
    + rewrite filter_step_skip by auto. now apply IH.
Qed.

(** With a negative limit the converted limit is out of reach of any vector:
    the loop appends every match. *)
Lemma filter_fold_unbounded source result :
  INT_MIN <= total_size < 0 ->
  Z.of_nat (length result + length source) <= PTRDIFF_MAX ->
  fold_left (filter_step min_kcal max_kcal total_size) source result
  = result ++ filter (within_kcal min_kcal max_kcal) source.
Proof.
  intros Hts. pose proof (to_size_t_neg _ Hts) as Hsz.
  unfold INT_MIN, PTRDIFF_MAX in *.
  revert result. induction source as [|x source IH]; intros result Hlen; simpl.
  - now rewrite filter_nil, app_nil_r.
  - simpl in Hlen. rewrite filter_cons.
    destruct (decide (within_kcal min_kcal max_kcal x)).
    + rewrite filter_step_keep by (auto; lia).
      rewrite IH by (rewrite length_app; simpl; lia).
      now rewrite <- app_assoc.
    + rewrite filter_step_skip by auto. apply IH. lia.
Qed.

(** Whatever the limit, the loop appends a sub-sequence of the matches of
    the rest of the source. *)
Lemma filter_fold_sublist source : forall result,
  exists s,
    fold_left (filter_step min_kcal max_kcal total_size) source result
    = result ++ s
    /\ sublist s (filter (within_kcal min_kcal max_kcal) source).
Proof.
  induction source as [|x source IH]; intros result; simpl.
  - exists []. rewrite app_nil_r, filter_nil. split; [reflexivity|constructor].
  - rewrite filter_cons.
    destruct (decide (within_kcal min_kcal max_kcal x)) as [Hx|Hx].
    + destruct (Z.eq_dec (Z.of_nat (length result)) (to_size_t total_size))
        as [Heq|Hne].
      * rewrite filter_step_full by assumption.
        destruct (IH result) as (s & -> & Hs).
        exists s. split; [reflexivity|now constructor].
      * rewrite filter_step_keep by assumption.
        destruct (IH (result ++ [x])) as (s & -> & Hs).
        exists (x :: s). rewrite <- app_assoc. split; [reflexivity|].
        now constructor.
    + rewrite filter_step_skip by assumption. apply IH.
Qed.

End Filter.

(** Whatever the limit, the output is a sub-sequence of the matches. *)
Lemma filter_food_vector_sublist source min_kcal max_kcal limit :
  sublist (filter_food_vector source min_kcal max_kcal limit)
          (filter (within_kcal min_kcal max_kcal) source).
Proof.
  unfold filter_food_vector.
  destruct (filter_fold_sublist min_kcal max_kcal limit source [])
    as (s & -> & Hs).
  exact Hs.
Qed.

Lemma filter_food_vector_within source min_kcal max_kcal limit :
  Forall (within_kcal min_kcal max_kcal)
         (filter_food_vector source min_kcal max_kcal limit).
Proof.
  apply Forall_forall. intros x Hx.
  pose proof (filter_food_vector_sublist source min_kcal max_kcal limit) as Hs.
  apply (elem_of_sublist _ _ _ Hx) in Hs.
  now apply list_elem_of_filter in Hs as [Hw _].
Qed.

(** C5 (amended to limits that are sizes): whatever the limit, every record
    of the output of [filter_food_vector] has [min_kcal < kcal <= max_kcal]
    and the output is a sub-sequence of the source; for [0 <= limit] the
    output is exactly the first [limit] records of the source, in source
    order, within these bounds (all of them when fewer match), so it has at
    most [limit] records. *)
Theorem filter_food_vector_first_matches source min_kcal max_kcal limit :
  Forall (within_kcal min_kcal max_kcal)
         (filter_food_vector source min_kcal max_kcal limit)
  /\ sublist (filter_food_vector source min_kcal max_kcal limit) source
  /\ (0 <= limit <= INT_MAX ->
      filter_food_vector source min_kcal max_kcal limit
      = take (Z.to_nat limit) (filter (within_kcal min_kcal max_kcal) source)
      /\ Z.of_nat (length (filter_food_vector source min_kcal max_kcal limit))
         <= limit).
Proof.
  split; [apply filter_food_vector_within|]. split.
  - etransitivity; [apply filter_food_vector_sublist|apply sublist_filter].
  - intros Hl. unfold filter_food_vector.
    rewrite filter_fold_limit by (simpl; lia).
    simpl. rewrite Nat.sub_0_r. split; [reflexivity|].
    rewrite length_take. lia.
Qed.

Lemma filter_food_vector_first_matches_witness :
  0 <= 1 <= INT_MAX /\ filter_food_vector pantry 0 2500 1 = [oats].
Proof.
  assert (H : 0 <= 1 <= INT_MAX) by (vm_compute; split; discriminate).
  split; [exact H|].
  destruct (filter_food_vector_first_matches pantry 0 2500 1)
    as (_ & _ & Hfirst).
  destruct (Hfirst H) as [Heq _]. rewrite Heq. reflexivity.
Defined.

(** C5 as stated fails for a negative limit: one matching record and
    [limit = -1] give an output of one record, which is neither the first
    [-1] matches nor of length at most [-1]. *)
Lemma filter_food_vector_first_matches_counterexample :
  filter_food_vector [egg] 0 2500 (-1) = [egg]
  /\ filter_food_vector [egg] 0 2500 (-1)
     <> take (Z.to_nat (-1)) (filter (within_kcal 0 2500) [egg])
  /\ ~ (Z.of_nat (length (filter_food_vector [egg] 0 2500 (-1))) <= -1).
Proof.
  split; [reflexivity|]. split.
  - vm_compute. discriminate.
  - vm_compute. intros H. apply H. reflexivity.
Qed.

(** C9: for a negative [total_size], [filter_food_vector] returns every
    record within the calorie bounds, without truncation: converted to
    [size_t] the limit is never equal to the size of the result, whose length
    exceeds [total_size]. *)
Theorem filter_food_vector_negative_limit source min_kcal max_kcal total_size :
  INT_MIN <= total_size < 0 ->
  fits_vector source ->
  filter_food_vector source min_kcal max_kcal total_size
  = filter (within_kcal min_kcal max_kcal) source
  /\ total_size
     < Z.of_nat (length (filter_food_vector source min_kcal max_kcal
                                            total_size)).
Proof.
  intros Hts Hfit. unfold filter_food_vector.
  rewrite filter_fold_unbounded by (auto; simpl; exact Hfit).
  simpl. split; [reflexivity|lia].
Qed.

Lemma filter_food_vector_negative_limit_witness :
  INT_MIN <= -3 < 0 /\ fits_vector pantry
  /\ filter_food_vector pantry 0 2500 (-3) = [oats; egg].
Proof.
  assert (H : INT_MIN <= -3 < 0) by (vm_compute; split; [discriminate|reflexivity]).
  assert (F : fits_vector pantry) by (vm_compute; discriminate).
  split; [exact H|]. split; [exact F|].
  destruct (filter_food_vector_negative_limit pantry 0 2500 (-3) H F) as [Heq _].
  rewrite Heq. reflexivity.
Defined.

(** ** The greedy selector *)

Section Scan.

Lemma scan_step_counter s food :
  scan_counter (scan_step s food) = S (scan_counter s).
Proof. unfold scan_step. now destruct (_ <? _). Qed.

Lemma scan_fold_counter l s :
  scan_counter (fold_left scan_step l s) = (scan_counter s + length l)%nat.
Proof.
  revert s. induction l as [|x l IH]; intros s; simpl; [lia|].
  rewrite IH, scan_step_counter. lia.
Qed.

(** The scan keeps either the placeholder or the food at [index]: [seen] is
    the part of [todo] already looked at. *)
Lemma scan_fold_spec l : forall seen s,
  scan_counter s = length seen ->
  scan_f s = placeholder \/ seen !! scan_index s = Some (scan_f s) ->
  scan_f (fold_left scan_step l s) = placeholder
  \/ (seen ++ l) !! scan_index (fold_left scan_step l s)
     = Some (scan_f (fold_left scan_step l s)).
Proof.
  induction l as [|x l IH]; intros seen s Hc Hs; simpl.
  - now rewrite app_nil_r.
  - replace (seen ++ x :: l) with ((seen ++ [x]) ++ l)
      by now rewrite <- app_assoc.
    apply IH.
    + rewrite scan_step_counter, length_app. simpl. lia.
    + unfold scan_step. destruct (_ <? _); simpl.
      * right. rewrite Hc. now apply list_lookup_middle.
      * destruct Hs as [Hs|Hs]; [now left|right].
        now apply lookup_app_l_Some.
Qed.

Lemma scan_todo_spec l :
  scan_f (scan_todo l) = placeholder
  \/ l !! scan_index (scan_todo l) = Some (scan_f (scan_todo l)).
Proof. apply (scan_fold_spec l [] (mkScan placeholder 0 0)); auto. Qed.

Lemma scan_fold_index l : forall s,
  (scan_index s < scan_counter s + length l)%nat ->
  (scan_index (fold_left scan_step l s) < scan_counter s + length l)%nat.
Proof.
  induction l as [|x l IH]; intros s Hs; simpl in *; [lia|].
  specialize (IH (scan_step s x)). rewrite scan_step_counter in IH.
  assert ((scan_index (scan_step s x) < S (scan_counter s) + length l)%nat).
  { unfold scan_step. destruct (_ <? _); simpl; lia. }
  lia.
Qed.

(** The index the scan returns is a position of a non-empty [todo]. *)
Lemma scan_todo_index l :
  l <> [] -> (scan_index (scan_todo l) < length l)%nat.
Proof.
  intros Hl. apply (scan_fold_index l (mkScan placeholder 0 0)). simpl.
  destruct l; [congruence|simpl; lia].
Qed.

(** The placeholder is kept only when no food has positive protein. *)
Lemma scan_fold_protein l : forall s x,
  x ∈ l -> protein_g x <= protein_g (scan_f (fold_left scan_step l s)).
Proof.
  assert (Hmono : forall l s,
             protein_g (scan_f s)
             <= protein_g (scan_f (fold_left scan_step l s))).
  { clear. induction l as [|y l IH]; intros s; simpl; [lia|].
    etransitivity; [|apply IH]. unfold scan_step.
    destruct (Z.ltb_spec (protein_g (scan_f s)) (protein_g y)); simpl; lia. }
  induction l as [|y l IH]; intros s x Hx; [now apply elem_of_nil in Hx|].
  apply elem_of_cons in Hx as [->|Hx]; simpl; [|now apply IH].
  etransitivity; [|apply Hmono]. unfold scan_step.
  destruct (Z.ltb_spec (protein_g (scan_f s)) (protein_g y)); simpl; lia.
Qed.

End Scan.

Section GreedyLoop.

Variable total_kcal : Z.

Lemma greedy_body_todo st :
  todo (greedy_body total_kcal st)
  = delete (scan_index (scan_todo (todo st))) (todo st).
Proof. unfold greedy_body. now destruct (_ <=? _). Qed.

(** One iteration removes exactly one food from [todo]. *)
Lemma greedy_body_length st :
  todo st <> [] ->
  S (length (todo (greedy_body total_kcal st))) = length (todo st).
Proof.
  intros Hne. rewrite greedy_body_todo, length_delete.
  - destruct (todo st); [congruence|simpl; lia].
  - apply lookup_lt_is_Some. now apply scan_todo_index.
Qed.

(** The loop is the body iterated once per food of [todo]. *)
Lemma greedy_loop_iter st :
  greedy_loop total_kcal st
  = Nat.iter (length (todo st)) (greedy_body total_kcal) st.
Proof.
  funelim (greedy_loop total_kcal st); simp greedy_loop; [reflexivity|].
  match goal with IH : greedy_loop _ _ = Nat.iter _ _ _ |- _ => rewrite IH end.
  pose proof (greedy_body_length (mkGreedy (x :: t) r c)) as Hlen.
  simpl in Hlen. specialize (Hlen ltac:(discriminate)).
  injection Hlen as ->. simpl todo. simpl length.
  now rewrite Nat.iter_succ_r.
Qed.

Lemma greedy_iter_length k : forall st,
  (k <= length (todo st))%nat ->
  length (todo (Nat.iter k (greedy_body total_kcal) st))
  = (length (todo st) - k)%nat.
Proof.
  induction k as [|k IH]; intros st Hk; [simpl; lia|].
  rewrite Nat.iter_succ_r.
  assert (Hne : todo st <> []) by (destruct (todo st); simpl in *; [lia|easy]).
  pose proof (greedy_body_length st Hne).
  rewrite IH; lia.
Qed.

(** A property of the state that the body preserves holds when the loop
    ends. *)
Lemma greedy_loop_invariant (P : greedy_state -> Prop) :
  (forall st, todo st <> [] -> P st -> P (greedy_body total_kcal st)) ->
  forall st, P st -> P (greedy_loop total_kcal st).
Proof.
  intros Hbody st. funelim (greedy_loop total_kcal st); simp greedy_loop.
  intros HP.
  match goal with IH : forall Q : greedy_state -> Prop, _ |- _ =>
    apply IH; [exact Hbody|] end.
  apply Hbody; [discriminate|exact HP].
Qed.

End GreedyLoop.

(** C7: every iteration of the main loop of [greedy_max_protein] removes
    exactly one record, at a position of [todo], from [todo], and the loop
    (total, by recursion on the size of [todo]) runs exactly [|candidates|]
    iterations: after [k] iterations [todo] holds [|candidates| - k]
    records, so the loop test holds before each of the first [|candidates|]
    iterations and fails after them. *)
Theorem greedy_loop_iterations foods total_kcal :
  (forall st, todo st <> [] ->
     (exists i, (i < length (todo st))%nat
                /\ todo (greedy_body total_kcal st) = delete i (todo st))
     /\ S (length (todo (greedy_body total_kcal st))) = length (todo st))
  /\ greedy_loop total_kcal (mkGreedy foods [] 0)
     = Nat.iter (length foods) (greedy_body total_kcal) (mkGreedy foods [] 0)
  /\ (forall k, (k <= length foods)%nat ->
        length (todo (Nat.iter k (greedy_body total_kcal)
                               (mkGreedy foods [] 0)))
        = (length foods - k)%nat)
  /\ (forall k, (k < length foods)%nat ->
        todo (Nat.iter k (greedy_body total_kcal) (mkGreedy foods [] 0))
        <> [])
  /\ todo (Nat.iter (length foods) (greedy_body total_kcal)
                    (mkGreedy foods [] 0)) = [].
Proof.
  split.
  { intros st Hne. split; [|now apply greedy_body_length].
    exists (scan_index (scan_todo (todo st))).
    split; [now apply scan_todo_index|apply greedy_body_todo]. }
  split; [apply (greedy_loop_iter total_kcal (mkGreedy foods [] 0))|].
  assert (Hlen : forall k, (k <= length foods)%nat ->
            length (todo (Nat.iter k (greedy_body total_kcal)
                                   (mkGreedy foods [] 0)))
            = (length foods - k)%nat).
  { intros k Hk.
    now rewrite (greedy_iter_length total_kcal k (mkGreedy foods [] 0)). }
  split; [exact Hlen|]. split.
  - intros k Hk He. specialize (Hlen k ltac:(lia)).
    rewrite He in Hlen. simpl in Hlen. lia.
  - apply length_zero_iff_nil. rewrite Hlen; lia.
Qed.

Section GreedyResult.

Variables (foods : FoodVector) (total_kcal : Z).

(** Every record of the result is a candidate or the placeholder the scan
    starts from. *)
Lemma greedy_result_elements x :
  x ∈ greedy_max_protein foods total_kcal -> x ∈ foods \/ x = placeholder.
Proof.
  unfold greedy_max_protein.
  pose (P := fun st : greedy_state =>
               todo st ⊆ foods
               /\ forall y, y ∈ result st -> y ∈ foods \/ y = placeholder).
  assert (HP : P (greedy_loop total_kcal (mkGreedy foods [] 0))).
  { apply greedy_loop_invariant.
    - intros st _ [Htodo Hres].
      assert (Hsub : todo (greedy_body total_kcal st) ⊆ foods).
      { rewrite greedy_body_todo. etransitivity; [|exact Htodo].
        apply list_subseteq_delete. }
      split; [exact Hsub|]. unfold greedy_body.
      destruct (_ <=? _); simpl; [|exact Hres].
      intros y Hy. apply elem_of_app in Hy as [Hy|Hy]; [now apply Hres|].
      apply list_elem_of_singleton in Hy as ->.
      destruct (scan_todo_spec (todo st)) as [Hp|Hl]; [now right|left].
      apply Htodo. eapply list_elem_of_lookup_2, Hl.
    - split; simpl; [reflexivity|]. intros y Hy. now apply elem_of_nil in Hy. }
  destruct HP as [_ HP]. apply HP.
Qed.

(** In the [int] arithmetic of the program, the calories of the result as
    [sum_food_vector] computes them are [result_cal], which never exceeds a
    non-negative budget. *)
Lemma greedy_result_cal :
  0 <= total_kcal ->
  fst (sum_food_vector (greedy_max_protein foods total_kcal)) <= total_kcal.
Proof.
  intros Hb. unfold greedy_max_protein.
  pose (P := fun st : greedy_state =>
               result_cal st = fst (sum_food_vector (result st))
               /\ result_cal st <= total_kcal).
  assert (HP : P (greedy_loop total_kcal (mkGreedy foods [] 0))).
  { apply greedy_loop_invariant.
    - intros st _ [Hrc Hle]. unfold greedy_body.
      destruct (Z.leb_spec (int_add (result_cal st)
                                    (kcal (scan_f (scan_todo (todo st)))))
                           total_kcal); simpl; [|now split].
      split; [|assumption].
      rewrite !sum_food_vector_wrap in *. simpl in *.
      rewrite kcal_total_app. simpl. rewrite Hrc. unfold int_add.
      rewrite to_int_add_l. f_equal. lia.
    - split; simpl; [reflexivity|assumption]. }
  destruct HP as [Hrc Hle]. now rewrite <- Hrc.
Qed.

Lemma placeholder_valid : Food_valid placeholder.
Proof. valid_food. Qed.

Lemma kcal_total_delete (l : FoodVector) i x :
  l !! i = Some x -> kcal_total (delete i l) + kcal x = kcal_total l.
Proof.
  revert i. induction l as [|y l IH]; intros [|i] Hi; simpl in *;
    try discriminate.
  - injection Hi as ->. lia.
  - specialize (IH _ Hi). lia.
Qed.

Lemma kcal_total_delete_le (l : FoodVector) i :
  Forall Food_valid l -> kcal_total (delete i l) <= kcal_total l.
Proof.
  intros Hv. revert i.
  induction Hv as [|y l [_ _ _ Hy _] _ IH]; intros [|i]; simpl; try lia.
  specialize (IH i). lia.
Qed.

(** Without overflow the exact calories of the result stay within a
    non-negative budget. *)
Lemma greedy_result_kcal_total :
  0 <= total_kcal ->
  Forall Food_valid foods -> kcal_total foods <= INT_MAX ->
  kcal_total (greedy_max_protein foods total_kcal) <= total_kcal.
Proof.
  intros Hb Hv Hfit. unfold greedy_max_protein.
  pose (P := fun st : greedy_state =>
               Forall Food_valid (todo st)
               /\ Forall Food_valid (result st)
               /\ kcal_total (result st) + kcal_total (todo st)
                  <= kcal_total foods
               /\ result_cal st = kcal_total (result st)
               /\ result_cal st <= total_kcal).
  assert (HP : P (greedy_loop total_kcal (mkGreedy foods [] 0))).
  { apply greedy_loop_invariant.
    - intros st _ (Htodo & Hres & Hsum & Hrc & Hle).
      set (s := scan_todo (todo st)).
      assert (Hf : Food_valid (scan_f s)).
      { destruct (scan_todo_spec (todo st)) as [Hp|Hl].
        - fold s in Hp. rewrite Hp. apply placeholder_valid.
        - eapply Forall_forall; [exact Htodo|].
          eapply list_elem_of_lookup_2, Hl. }
      assert (Hdel : kcal_total (delete (scan_index s) (todo st))
                     + kcal (scan_f s) <= kcal_total (todo st)).
      { destruct (scan_todo_spec (todo st)) as [Hp|Hl].
        - fold s in Hp. rewrite Hp. simpl.
          pose proof (kcal_total_delete_le (todo st) (scan_index s) Htodo).
          lia.
        - pose proof (kcal_total_delete _ _ _ Hl). fold s in H. lia. }
      assert (Htodo' : Forall Food_valid (delete (scan_index s) (todo st)))
        by now apply Forall_delete.
      pose proof (kcal_total_nonneg _ Htodo').
      pose proof (kcal_total_nonneg _ Hres).
      pose proof (valid_kcal _ Hf) as Hk.
      assert (Hadd : int_add (result_cal st) (kcal (scan_f s))
                     = result_cal st + kcal (scan_f s)).
      { unfold int_add. apply to_int_id.
        int_lia. }
      unfold greedy_body. fold s. rewrite Hadd.
      destruct (Z.leb_spec (result_cal st + kcal (scan_f s)) total_kcal);
        unfold P; cbn [todo result result_cal].
      + rewrite kcal_total_app. simpl.
        repeat split; auto; try lia.
        apply Forall_app. split; [assumption|].
        now apply Forall_singleton.
      + repeat split; auto; lia.
    - unfold P. simpl. repeat split; auto; lia. }
  destruct HP as (_ & _ & _ & Hrc & Hle). now rewrite <- Hrc.
Qed.

End GreedyResult.

(** C2 (evaluation of the code at an input where the claim fails): when no
    remaining food has positive protein the scan keeps its placeholder
    [Food(" ", " ", 0, 0, 0)], the loop erases the food at index 0 and pushes
    the placeholder: for the single valid candidate [water] the result is
    the placeholder, which is not an element of the candidates. *)
Theorem greedy_selects_placeholder :
  Food_valid water
  /\ greedy_max_protein [water] 2000 = [placeholder]
  /\ placeholder ∉ [water].
Proof.
  split; [|split].
  - valid_food.
  - reflexivity.
  - intros H. apply list_elem_of_singleton in H. discriminate H.
Qed.

(** C3 (amended to non-negative budgets): for [0 <= total_kcal] the calories
    of the records returned by [greedy_max_protein], as [sum_food_vector]
    adds them, are at most [total_kcal]; and so is their exact sum when the
    candidates are valid and their total calories fit an [int]. *)
Theorem greedy_within_budget foods total_kcal :
  0 <= total_kcal ->
  fst (sum_food_vector (greedy_max_protein foods total_kcal)) <= total_kcal
  /\ (Forall Food_valid foods -> kcal_total foods <= INT_MAX ->
      kcal_total (greedy_max_protein foods total_kcal) <= total_kcal).
Proof.
  intros Hb. split.
  - now apply greedy_result_cal.
  - now apply greedy_result_kcal_total.
Qed.

Lemma greedy_within_budget_witness :
  0 <= 400
  /\ fst (sum_food_vector (greedy_max_protein scenario 400)) <= 400.
Proof.
  assert (H : 0 <= 400) by lia.
  split; [exact H|]. exact (proj1 (greedy_within_budget scenario 400 H)).
Defined.

(** C3 as stated fails for a negative budget: nothing is selected, and the
    calories of the empty result, 0, exceed the budget. *)
Lemma greedy_within_budget_counterexample :
  greedy_max_protein scenario (-1) = []
  /\ ~ (fst (sum_food_vector (greedy_max_protein scenario (-1))) <= -1)
  /\ ~ (kcal_total (greedy_max_protein scenario (-1)) <= -1).
Proof.
  split; [reflexivity|]. split; vm_compute; intros H; apply H; reflexivity.
Qed.

(** ** The exhaustive selector *)

Section Masks.

Lemma land_1_odd a : (Z.land a 1 =? 1) = Z.odd a.
Proof.
  change 1 with (Z.ones 1) at 1. rewrite Z.land_ones by lia.
  change (2 ^ 1) with 2. rewrite Zmod_odd. now destruct (Z.odd a).
Qed.

Lemma candidate_fold_select (l : FoodVector) : forall seen acc bits,
  fold_left (candidate_step (seen ++ l) bits)
            (seq (length seen) (length l)) acc
  = acc ++ select (Z.shiftr bits (Z.of_nat (length seen))) l.
Proof.
  induction l as [|x l IH]; intros seen acc bits; simpl.
  - now rewrite app_nil_r.
  - unfold candidate_step at 2. rewrite land_1_odd.
    rewrite (list_lookup_middle seen l x) by reflexivity.
    specialize (IH (seen ++ [x])). rewrite length_app in IH. simpl in IH.
    rewrite <- app_assoc in IH. simpl in IH.
    replace (S (length seen)) with (length seen + 1)%nat by lia.
    rewrite Z.div2_spec, Z.shiftr_shiftr by lia.
    replace (Z.of_nat (length seen) + 1) with (Z.of_nat (length seen + 1))
      by lia.
    destruct (Z.odd _); rewrite IH; [|reflexivity].
    now rewrite <- app_assoc.
Qed.

(** The inner loop selects the foods at the bit positions set in [bits]. *)
Lemma make_candidate_select foods bits :
  make_candidate foods (Z.of_nat (length foods)) bits = select bits foods.
Proof.
  unfold make_candidate. rewrite Nat2Z.id.
  apply (candidate_fold_select foods [] [] bits).
Qed.

Lemma select_sublist l : forall bits, sublist (select bits l) l.
Proof.
  induction l as [|x l IH]; intros bits; simpl; [constructor|].
  destruct (Z.odd bits); constructor; apply IH.
Qed.

Lemma select_0 l : select 0 l = [].
Proof. induction l as [|x l IH]; simpl; auto. Qed.

(** Every sub-sequence is the candidate of a mask below [2^n]. *)
Lemma sublist_select (s l : FoodVector) :
  sublist s l ->
  exists m, 0 <= m < 2 ^ Z.of_nat (length l) /\ select m l = s.
Proof.
  induction 1 as [|x s l _ (m & Hm & IH)|x s l _ (m & Hm & IH)].
  - exists 0. simpl. split; [lia|reflexivity].
  - exists (2 * m + 1). simpl length.
    rewrite Nat2Z.inj_succ, Z.pow_succ_r by lia. split; [lia|]. simpl select.
    replace (Z.odd (2 * m + 1)) with true
      by (symmetry; rewrite Z.add_comm, Z.odd_add_mul_2; reflexivity).
    replace (Z.div2 (2 * m + 1)) with m
      by (rewrite Z.div2_div; apply (Z.div_unique _ 2 m 1); lia).
    now rewrite IH.
  - exists (2 * m). simpl length.
    rewrite Nat2Z.inj_succ, Z.pow_succ_r by lia. split; [lia|]. simpl select.
    replace (Z.odd (2 * m)) with false
      by (symmetry; rewrite Z.odd_mul; reflexivity).
    replace (Z.div2 (2 * m)) with m
      by (rewrite Z.div2_div; apply (Z.div_unique _ 2 m 0); lia).
    exact IH.
Qed.

(** A non-zero mask below [2^n] selects at least one food. *)
Lemma select_nonempty l : forall m,
  1 <= m < 2 ^ Z.of_nat (length l) -> select m l <> [].
Proof.
  induction l as [|x l IH]; intros m Hm; [simpl in Hm; lia|].
  simpl length in Hm. rewrite Nat2Z.inj_succ, Z.pow_succ_r in Hm by lia.
  simpl select. destruct (Z.odd m) eqn:Ho; [discriminate|].
  apply IH. pose proof (Z.div2_odd m) as Hd. rewrite Ho in Hd. simpl in Hd.
  lia.
Qed.

End Masks.

Section LoopTest.

Lemma double_of_uint64_exact b : b < 2 ^ 53 -> double_of_uint64 b = b.
Proof.
  intros Hb. unfold double_of_uint64.
  destruct (Z.ltb_spec b (2 ^ 53)); [reflexivity|lia].
Qed.

(** Below [2^53] the loop test is the comparison of integers. *)
Lemma bits_lt_power_exact n b :
  0 <= n <= 53 -> 0 <= b < 2 ^ n -> bits_lt_power n b = true.
Proof.
  intros Hn Hb. unfold bits_lt_power.
  destruct (Z.ltb_spec n (-1074)); [lia|].
  destruct (Z.ltb_spec n 0); [lia|].
  assert (2 ^ n <= 2 ^ 53) by (apply Z.pow_le_mono_r; lia).
  rewrite double_of_uint64_exact by lia. now apply Z.ltb_lt.
Qed.

(** [2^n] converts to itself, for each of the 64 exponents: the loop test
    fails there at the latest. *)
Lemma bits_lt_power_pow2 n : 0 <= n < 64 -> bits_lt_power n (2 ^ n) = false.
Proof.
  intros Hn.
  assert (Hall : forallb (fun k => negb (bits_lt_power k (2 ^ k))) (seqZ 0 64)
                 = true) by (vm_compute; reflexivity).
  rewrite forallb_forall in Hall.
  apply negb_true_iff, Hall, list_elem_of_In, elem_of_seqZ. lia.
Qed.

Lemma bits_lt_power_negative n : n < 0 -> bits_lt_power n 1 = false.
Proof.
  intros Hn. unfold bits_lt_power.
  destruct (Z.ltb_spec n (-1074)); [reflexivity|].
  destruct (Z.ltb_spec n 0); [reflexivity|lia].
Qed.

(** A test that fails at [N] fails first at some [K <= N]. *)
Lemma first_failure (p : Z -> bool) N :
  0 <= N -> p N = false ->
  exists K, 0 <= K <= N /\ p K = false /\ forall b, 0 <= b < K -> p b = true.
Proof.
  intros HN HpN.
  assert (Hsearch : forall k : nat,
             (forall b, 0 <= b < Z.of_nat k -> p b = true)
             \/ exists K, 0 <= K < Z.of_nat k /\ p K = false
                          /\ forall b, 0 <= b < K -> p b = true).
  { induction k as [|k [IH|(K & HK & HpK & Hbelow)]].
    - left. intros b Hb. lia.
    - destruct (p (Z.of_nat k)) eqn:Hpk.
      + left. intros b Hb.
        destruct (Z.eq_dec b (Z.of_nat k)) as [->|Hne]; [assumption|].
        apply IH. lia.
      + right. exists (Z.of_nat k). repeat split; auto; lia.
    - right. exists K. repeat split; auto; lia. }
  destruct (Hsearch (Z.to_nat N)) as [Hall|(K & HK & HpK & Hbelow)].
  - exists N. repeat split; auto; try lia. intros b Hb. apply Hall. lia.
  - exists K. repeat split; auto; lia.
Qed.

End LoopTest.

Section MaskLoop.

Variables (foods : FoodVector) (n total_kcal : Z).

(** The loop started at [bits] runs the body on [bits .. K - 1], where [K]
    is the first value at which the test fails, when the fuel allows for
    [K - bits] iterations and the failing test. *)
Lemma mask_loop_spec K : forall fuel bits best,
  0 <= bits <= K -> K < 2 ^ 64 ->
  (forall b, bits <= b < K -> bits_lt_power n b = true) ->
  bits_lt_power n K = false ->
  (Z.to_nat (K - bits) < fuel)%nat ->
  mask_loop fuel foods n total_kcal bits best
  = Some (K, fold_left (mask_body foods n total_kcal)
                       (seqZ bits (K - bits)) best).
Proof.
  induction fuel as [|fuel IH]; intros bits best Hb HK Htrue Hfalse Hfuel;
    [lia|].
  simpl. destruct (Z.eq_dec bits K) as [->|Hne].
  - rewrite Hfalse, Z.sub_diag. reflexivity.
  - rewrite Htrue by lia.
    assert (Hsucc : uint64_succ bits = bits + 1).
    { unfold uint64_succ. apply Z.mod_small. lia. }
    rewrite Hsucc, IH; auto; try lia.
    + rewrite (seqZ_cons bits) by lia. simpl.
      repeat f_equal; lia.
    + intros b Hb'. apply Htrue. lia.
Qed.

(** When the test fails at [N] the loop ends at some [K <= N], having run
    the body on the masks [0 .. K - 1]. *)
Lemma mask_loop_returns_upto N fuel :
  0 <= N < 2 ^ 64 -> bits_lt_power n N = false -> (Z.to_nat N < fuel)%nat ->
  exists K,
    0 <= K <= N /\ bits_lt_power n K = false
    /\ mask_loop fuel foods n total_kcal 0 []
       = Some (K, fold_left (mask_body foods n total_kcal) (seqZ 0 K) []).
Proof.
  intros HN HfN Hfuel.
  destruct (first_failure (bits_lt_power n) N) as (K & HK & HfK & Hlt);
    [lia|assumption|].
  exists K. split; [exact HK|]. split; [exact HfK|].
  rewrite (mask_loop_spec K); auto; try lia.
  now rewrite Z.sub_0_r.
Qed.

(** For every [n < 64] the loop ends, having run the body on the masks
    [0 .. K - 1], with [K = 2^n] for [n <= 53]. *)
Lemma mask_loop_returns :
  n < 64 ->
  exists K,
    0 <= K /\ (0 <= n -> K <= 2 ^ n) /\ (0 <= n <= 53 -> K = 2 ^ n)
    /\ mask_loop (mask_fuel n) foods n total_kcal 0 []
       = Some (K, fold_left (mask_body foods n total_kcal) (seqZ 0 K) []).
Proof.
  intros Hn. destruct (Z.lt_ge_cases n 0) as [Hneg|Hpos].
  - destruct (mask_loop_returns_upto 1 (mask_fuel n))
      as (K & HK & _ & Hloop);
      [lia|now apply bits_lt_power_negative|unfold mask_fuel; lia|].
    exists K. repeat split; auto; lia.
  - assert (Hpow : 0 < 2 ^ n <= 2 ^ 63).
    { split; [apply Z.pow_pos_nonneg; lia|apply Z.pow_le_mono_r; lia]. }
    destruct (mask_loop_returns_upto (2 ^ n) (mask_fuel n))
      as (K & HK & HfK & Hloop);
      [lia|apply bits_lt_power_pow2; lia|unfold mask_fuel; lia|].
    exists K. repeat split; auto; try lia.
    intros Hn53. destruct (Z.eq_dec K (2 ^ n)) as [|Hne]; [assumption|].
    rewrite bits_lt_power_exact in HfK by lia. discriminate.
Qed.

End MaskLoop.

Section Tracking.

Variables (foods : FoodVector) (total_kcal : Z).

Let n : Z := Z.of_nat (length foods).
Let cand (m : Z) : FoodVector := make_candidate foods n m.

Lemma best_upto_0 : best_upto foods total_kcal 0 = [].
Proof. reflexivity. Qed.

Lemma best_upto_succ K :
  0 <= K ->
  best_upto foods total_kcal (K + 1)
  = mask_body foods n total_kcal (best_upto foods total_kcal K) K.
Proof.
  intros HK. unfold best_upto.
  rewrite seqZ_app, fold_left_app by lia. reflexivity.
Qed.

Lemma mask_body_infeasible best m :
  ~ feasible foods total_kcal m -> mask_body foods n total_kcal best m = best.
Proof.
  unfold feasible, mask_body. fold n. intros Hn.
  destruct (sum_food_vector (make_candidate foods n m)) as [cc cp].
  destruct (sum_food_vector best) as [bc bp]. simpl in Hn.
  destruct (Z.leb_spec cc total_kcal); [lia|reflexivity].
Qed.

Lemma mask_body_empty m :
  feasible foods total_kcal m -> mask_body foods n total_kcal [] m = cand m.
Proof.
  unfold feasible, mask_body, cand. fold n. intros Hf.
  destruct (sum_food_vector (make_candidate foods n m)) as [cc cp].
  simpl in *. destruct (Z.leb_spec cc total_kcal); [reflexivity|lia].
Qed.

Lemma mask_body_better best m :
  feasible foods total_kcal m ->
  snd (sum_food_vector best) < mask_protein foods m ->
  mask_body foods n total_kcal best m = cand m.
Proof.
  unfold feasible, mask_protein, mask_body, cand. fold n. intros Hf Hp.
  destruct (sum_food_vector (make_candidate foods n m)) as [cc cp].
  destruct (sum_food_vector best) as [bc bp]. simpl in *.
  destruct (Z.leb_spec cc total_kcal); [|lia].
  destruct (Z.ltb_spec bp cp); [|lia]. now rewrite orb_true_r.
Qed.

Lemma mask_body_keep best m :
  best <> [] ->
  mask_protein foods m <= snd (sum_food_vector best) ->
  mask_body foods n total_kcal best m = best.
Proof.
  unfold mask_protein, mask_body. fold n. intros Hne Hp.
  destruct (sum_food_vector (make_candidate foods n m)) as [cc cp].
  destruct (sum_food_vector best) as [bc bp]. simpl in *.
  destruct (Z.ltb_spec bp cp); [lia|].
  destruct best; [congruence|]. simpl. now destruct (cc <=? total_kcal).
Qed.

Lemma cand_0 : cand 0 = [].
Proof. unfold cand, n. rewrite make_candidate_select. apply select_0. Qed.

Lemma cand_nonempty m : 1 <= m < 2 ^ n -> cand m <> [].
Proof.
  intros Hm. unfold cand, n. rewrite make_candidate_select.
  now apply select_nonempty.
Qed.

Lemma best_upto_tracked K :
  0 <= K <= 2 ^ n ->
  tracked foods total_kcal K (best_upto foods total_kcal K).
Proof.
  intros [HK0 HK]. revert HK. pattern K. apply natlike_ind; [| |exact HK0].
  - intros _. left. split; [reflexivity|]. intros m Hm. lia.
  - clear K HK0. intros K HK0 IH HK. specialize (IH ltac:(lia)).
    unfold Z.succ. rewrite best_upto_succ by lia.
    set (best := best_upto foods total_kcal K) in *.
    assert (Hdec : feasible foods total_kcal K
                   \/ ~ feasible foods total_kcal K)
      by (unfold feasible; lia).
    destruct Hdec as [Hf|Hf].
    2:{ rewrite mask_body_infeasible by assumption.
        destruct IH as [[He Hnone]|(m & Hm & He & Hfm & Hmax & Hfirst)].
        - left. split; [assumption|]. intros m Hm.
          destruct (Z.eq_dec m K) as [->|]; [assumption|]. apply Hnone. lia.
        - right. exists m. repeat split; auto; try lia.
          intros m' Hm' Hf'. destruct (Z.eq_dec m' K) as [->|]; [easy|].
          apply Hmax; [lia|assumption]. }
    destruct (Z.eq_dec K 0) as [->|HKne].
    { destruct IH as [[He _]|(m & Hm & _)]; [|lia].
      rewrite He, mask_body_empty, cand_0 by assumption.
      left. split; [reflexivity|]. intros m Hm. lia. }
    destruct IH as [[He Hnone]|(m & Hm & He & Hfm & Hmax & Hfirst)].
    + rewrite He, mask_body_empty by assumption.
      right. exists K. repeat split; auto; try lia.
      * intros m' Hm' Hf'. destruct (Z.eq_dec m' K) as [->|]; [lia|].
        exfalso. apply (Hnone m'); [lia|assumption].
      * intros m' Hm' Hf'. exfalso. apply (Hnone m'); [lia|assumption].
    + assert (Hbp : snd (sum_food_vector best) = mask_protein foods m)
        by now rewrite He.
      destruct (Z.lt_ge_cases (mask_protein foods m) (mask_protein foods K))
        as [Hlt|Hge].
      * rewrite mask_body_better by (auto; lia).
        right. exists K. repeat split; auto; try lia.
        -- intros m' Hm' Hf'. destruct (Z.eq_dec m' K) as [->|]; [lia|].
           specialize (Hmax m' ltac:(lia) Hf'). lia.
        -- intros m' Hm' Hf'. specialize (Hmax m' ltac:(lia) Hf'). lia.
      * rewrite mask_body_keep.
        -- right. exists m. repeat split; auto; try lia.
           intros m' Hm' Hf'. destruct (Z.eq_dec m' K) as [->|]; [lia|].
           apply Hmax; [lia|assumption].
        -- rewrite He. apply cand_nonempty. lia.
        -- lia.
Qed.

End Tracking.

Section SubVectors.

Lemma sublist_valid (s l : FoodVector) :
  sublist s l -> Forall Food_valid l -> Forall Food_valid s.
Proof.
  induction 1 as [|x s l _ IH|x s l _ IH]; intros Hv.
  - constructor.
  - apply Forall_cons in Hv as [Hx Hv]. constructor; auto.
  - apply Forall_cons in Hv as [_ Hv]. auto.
Qed.

Lemma sublist_kcal_total (s l : FoodVector) :
  sublist s l -> Forall Food_valid l -> kcal_total s <= kcal_total l.
Proof.
  induction 1 as [|x s l _ IH|x s l _ IH]; intros Hv; simpl.
  - lia.
  - apply Forall_cons in Hv as [_ Hv]. specialize (IH Hv). lia.
  - apply Forall_cons in Hv as [[_ _ _ Hx _] Hv]. specialize (IH Hv). lia.
Qed.

Lemma sublist_protein_total (s l : FoodVector) :
  sublist s l -> Forall Food_valid l -> protein_total s <= protein_total l.
Proof.
  induction 1 as [|x s l _ IH|x s l _ IH]; intros Hv; simpl.
  - lia.
  - apply Forall_cons in Hv as [_ Hv]. specialize (IH Hv). lia.
  - apply Forall_cons in Hv as [[_ _ _ _ Hx] Hv]. specialize (IH Hv). lia.
Qed.

(** The aggregator is exact on every sub-sequence of valid foods whose
    totals fit an [int]. *)
Lemma sum_food_vector_sublist (s l : FoodVector) :
  sublist s l -> Forall Food_valid l -> sums_fit l ->
  sum_food_vector s = (kcal_total s, protein_total s).
Proof.
  intros Hs Hv [Hk Hp]. apply sum_food_vector_exact.
  - eapply sublist_valid; eauto.
  - split.
    + pose proof (sublist_kcal_total _ _ Hs Hv). lia.
    + pose proof (sublist_protein_total _ _ Hs Hv). lia.
Qed.

End SubVectors.

Section Exhaustive.

Variables (foods : FoodVector) (total_kcal : Z).

Let n : Z := Z.of_nat (length foods).

Lemma to_int_length : n <= INT_MAX -> to_int n = n.
Proof.
  intros Hn. apply to_int_id. unfold in_range, INT_MIN, INT_MAX in *.
  subst n. lia.
Qed.

(** Under the assertion the function returns what the loop has tracked over
    the masks of the loop. *)
Lemma exhaustive_returns_tracked :
  n < 64 ->
  exists K,
    0 <= K <= 2 ^ n /\ (n <= 53 -> K = 2 ^ n)
    /\ exhaustive_max_protein foods total_kcal
       = Returned (best_upto foods total_kcal K).
Proof.
  intros Hn.
  assert (Hint : to_int n = n) by (apply to_int_length; unfold INT_MAX; lia).
  unfold exhaustive_max_protein. fold n. rewrite Hint.
  destruct (Z.ltb_spec n 64); [|lia].
  destruct (mask_loop_returns foods n total_kcal Hn)
    as (K & HK0 & HKle & HKeq & Hloop).
  rewrite Hloop. exists K. repeat split; auto; subst n; lia.
Qed.

(** When the totals fit an [int], feasibility and protein of a mask are
    those of the exact totals of its candidate. *)
Lemma feasible_exact m :
  Forall Food_valid foods -> sums_fit foods ->
  (feasible foods total_kcal m <-> kcal_total (select m foods) <= total_kcal)
  /\ mask_protein foods m = protein_total (select m foods).
Proof.
  intros Hv Hfit. unfold feasible, mask_protein.
  rewrite make_candidate_select.
  rewrite (sum_food_vector_sublist _ foods (select_sublist foods m) Hv Hfit).
  simpl. split; reflexivity.
Qed.

End Exhaustive.

Section ExhaustiveOptimal.

Variables (foods : FoodVector) (total_kcal : Z).

Hypothesis foods_valid : Forall Food_valid foods.
Hypothesis foods_fit : sums_fit foods.

Lemma tracked_feasible K best :
  0 <= total_kcal -> tracked foods total_kcal K best ->
  sublist best foods /\ kcal_total best <= total_kcal.
Proof.
  intros Hb [[-> _]|(m & _ & -> & Hf & _)].
  - split; [apply sublist_nil_l|simpl; lia].
  - rewrite make_candidate_select. split; [apply select_sublist|].
    now apply (feasible_exact foods total_kcal m foods_valid foods_fit).
Qed.

Lemma tracked_optimal best s :
  tracked foods total_kcal (2 ^ Z.of_nat (length foods)) best ->
  sublist s foods -> kcal_total s <= total_kcal ->
  protein_total s <= protein_total best.
Proof.
  intros Ht Hs Hk. destruct (sublist_select _ _ Hs) as (m & Hm & <-).
  destruct (feasible_exact foods total_kcal m foods_valid foods_fit)
    as [Hfm Hpm].
  destruct (Z.eq_dec m 0) as [->|Hne].
  - rewrite select_0. simpl. apply protein_total_nonneg.
    destruct Ht as [[-> _]|(m & _ & -> & _)]; [constructor|].
    rewrite make_candidate_select.
    eapply sublist_valid; [apply select_sublist|exact foods_valid].
  - destruct Ht as [[_ Hnone]|(m' & _ & -> & _ & Hmax & _)].
    + exfalso. apply (Hnone m); [lia|]. now apply Hfm.
    + rewrite make_candidate_select.
      destruct (feasible_exact foods total_kcal m' foods_valid foods_fit)
        as [_ Hpm'].
      rewrite <- Hpm, <- Hpm'. apply Hmax; [lia|]. now apply Hfm.
Qed.

End ExhaustiveOptimal.

(** C1 (amended to non-negative budgets, at most 53 candidates and sums
    that fit an [int]): [exhaustive_max_protein] returns a sub-sequence of
    the candidates whose total calories are at most [total_kcal] and whose
    total protein is at least that of every sub-sequence of the candidates
    within the budget, that is, of the candidate of every mask from [0] to
    [2^n - 1]. *)
Theorem exhaustive_optimal foods total_kcal :
  (length foods <= 53)%nat ->
  0 <= total_kcal ->
  Forall Food_valid foods ->
  sums_fit foods ->
  exists best,
    exhaustive_max_protein foods total_kcal = Returned best
    /\ sublist best foods
    /\ kcal_total best <= total_kcal
    /\ (forall s, sublist s foods -> kcal_total s <= total_kcal ->
          protein_total s <= protein_total best)
    /\ (forall m, 0 <= m < 2 ^ Z.of_nat (length foods) ->
          kcal_total (make_candidate foods (Z.of_nat (length foods)) m)
          <= total_kcal ->
          protein_total (make_candidate foods (Z.of_nat (length foods)) m)
          <= protein_total best).
Proof.
  intros Hn Hb Hv Hfit.
  destruct (exhaustive_returns_tracked foods total_kcal ltac:(lia))
    as (K & HK & HKeq & Hret).
  specialize (HKeq ltac:(lia)). subst K.
  pose proof (best_upto_tracked foods total_kcal _ HK) as Ht.
  exists (best_upto foods total_kcal (2 ^ Z.of_nat (length foods))).
  destruct (tracked_feasible foods total_kcal Hv Hfit _ _ Hb Ht) as [Hs Hk].
  split; [exact Hret|]. split; [exact Hs|]. split; [exact Hk|].
  assert (Hopt : forall s, sublist s foods -> kcal_total s <= total_kcal ->
            protein_total s
            <= protein_total
                 (best_upto foods total_kcal (2 ^ Z.of_nat (length foods))))
    by (intros s; now apply tracked_optimal).
  split; [exact Hopt|].
  intros m _. rewrite make_candidate_select.
  apply Hopt, select_sublist.
Qed.

Lemma scenario_valid : Forall Food_valid scenario.
Proof.
  repeat (constructor; [valid_food|]). constructor.
Qed.

Lemma scenario_fit : sums_fit scenario.
Proof. split; vm_compute; discriminate. Qed.

Lemma exhaustive_optimal_witness :
  (length scenario <= 53)%nat /\ 0 <= 400
  /\ Forall Food_valid scenario /\ sums_fit scenario
  /\ exhaustive_max_protein scenario 400 = Returned [item1; item3]
  /\ forall s, sublist s scenario -> kcal_total s <= 400 ->
       protein_total s <= 30.
Proof.
  assert (H1 : (length scenario <= 53)%nat) by (simpl; lia).
  assert (H2 : 0 <= 400) by lia.
  split; [exact H1|]. split; [exact H2|].
  split; [exact scenario_valid|]. split; [exact scenario_fit|].
  destruct (exhaustive_optimal scenario 400 H1 H2 scenario_valid scenario_fit)
    as (best & Hret & _ & _ & Hopt & _).
  assert (Hbest : best = [item1; item3])
    by (vm_compute in Hret; now injection Hret).
  subst best. split; [reflexivity|exact Hopt].
Defined.

(** C1 as stated fails for a negative budget: the function returns the
    empty subset, whose total calories, 0, are not within the budget. *)
Lemma exhaustive_optimal_counterexample :
  exhaustive_max_protein scenario (-1) = Returned []
  /\ ~ (exists best,
          exhaustive_max_protein scenario (-1) = Returned best
          /\ kcal_total best <= -1).
Proof.
  split; [reflexivity|]. intros (best & Hret & Hk).
  vm_compute in Hret. injection Hret as <-. simpl in Hk. lia.
Qed.

(** C4 (amended: the tracked best is also replaced when it is empty, so the
    empty subset is kept only while no non-empty subset is feasible): for at
    most 53 candidates, a feasible candidate replaces the tracked best when
    the tracked best is empty or the candidate has strictly greater protein,
    and only then; mask 0 gives the empty subset, feasible when
    [0 <= total_kcal]; the function returns the first feasible non-empty
    subset, in increasing mask order, of greatest protein among the feasible
    non-empty subsets, and the empty subset when no non-empty subset is
    feasible. *)
Theorem exhaustive_first_maximum foods total_kcal :
  (length foods <= 53)%nat ->
  (forall best bits,
     let n := Z.of_nat (length foods) in
     (~ feasible foods total_kcal bits ->
        mask_body foods n total_kcal best bits = best)
     /\ (feasible foods total_kcal bits -> best = [] ->
           mask_body foods n total_kcal best bits
           = make_candidate foods n bits)
     /\ (feasible foods total_kcal bits ->
         snd (sum_food_vector best) < mask_protein foods bits ->
           mask_body foods n total_kcal best bits
           = make_candidate foods n bits)
     /\ (best <> [] ->
         mask_protein foods bits <= snd (sum_food_vector best) ->
           mask_body foods n total_kcal best bits = best))
  /\ make_candidate foods (Z.of_nat (length foods)) 0 = []
  /\ (0 <= total_kcal -> feasible foods total_kcal 0)
  /\ ((exhaustive_max_protein foods total_kcal = Returned []
       /\ forall m, 1 <= m < 2 ^ Z.of_nat (length foods) ->
            ~ feasible foods total_kcal m)
      \/ exists m,
           1 <= m < 2 ^ Z.of_nat (length foods)
           /\ exhaustive_max_protein foods total_kcal
              = Returned (make_candidate foods (Z.of_nat (length foods)) m)
           /\ make_candidate foods (Z.of_nat (length foods)) m <> []
           /\ feasible foods total_kcal m
           /\ (forall m', 1 <= m' < 2 ^ Z.of_nat (length foods) ->
                 feasible foods total_kcal m' ->
                 mask_protein foods m' <= mask_protein foods m)
           /\ (forall m', 1 <= m' < m -> feasible foods total_kcal m' ->
                 mask_protein foods m' < mask_protein foods m)).
Proof.
  intros Hn. split; [|split; [|split]].
  - intros best bits n. repeat split.
    + apply mask_body_infeasible.
    + intros Hf ->. now apply mask_body_empty.
    + apply mask_body_better.
    + apply mask_body_keep.
  - apply cand_0.
  - intros Hb. unfold feasible. now rewrite cand_0.
  - destruct (exhaustive_returns_tracked foods total_kcal ltac:(lia))
      as (K & HK & HKeq & Hret).
    specialize (HKeq ltac:(lia)). subst K.
    destruct (best_upto_tracked foods total_kcal _ HK)
      as [[He Hnone]|(m & Hm & He & Hrest)].
    + left. rewrite Hret, He. now split.
    + right. exists m. rewrite Hret, He.
      split; [exact Hm|]. split; [reflexivity|].
      split; [now apply cand_nonempty|exact Hrest].
Qed.

Lemma exhaustive_first_maximum_witness :
  (length scenario <= 53)%nat
  /\ exists m,
       1 <= m < 2 ^ Z.of_nat (length scenario)
       /\ exhaustive_max_protein scenario 400
          = Returned (make_candidate scenario (Z.of_nat (length scenario)) m)
       /\ feasible scenario 400 m
       /\ (forall m', 1 <= m' < m -> feasible scenario 400 m' ->
             mask_protein scenario m' < mask_protein scenario m).
Proof.
  assert (H : (length scenario <= 53)%nat) by (simpl; lia).
  split; [exact H|].
  destruct (exhaustive_first_maximum scenario 400 H)
    as (_ & _ & _ & [[He _]|(m & Hm & He & _ & Hf & _ & Hfirst)]).
  - vm_compute in He. discriminate He.
  - exists m. repeat split; auto; lia.
Defined.

(** C4 as stated fails when the empty subset attains the greatest protein
    and a non-empty subset is feasible: for the single candidate [broth]
    (10 kcal, no protein) and a budget of 100 the empty subset (mask 0) is
    feasible with the greatest protein, 0, but mask 1 replaces it, on equal
    protein, and [broth] is returned. *)
Lemma exhaustive_first_maximum_counterexample :
  0 <= 100
  /\ feasible [broth] 100 0
  /\ make_candidate [broth] 1 0 = []
  /\ (forall m, 0 <= m < 2 ^ 1 -> feasible [broth] 100 m ->
        mask_protein [broth] m <= mask_protein [broth] 0)
  /\ mask_body [broth] 1 100 [] 1 = [broth]
  /\ ~ (snd (sum_food_vector []) < mask_protein [broth] 1)
  /\ exhaustive_max_protein [broth] 100 = Returned [broth]
  /\ exhaustive_max_protein [broth] 100 <> Returned [].
Proof.
  split; [lia|]. split; [vm_compute; discriminate|].
  split; [reflexivity|]. split.
  - intros m Hm _. assert (Hc : m = 0 \/ m = 1) by lia.
    destruct Hc as [->| ->]; vm_compute; discriminate.
  - split; [reflexivity|]. split; [vm_compute; discriminate|].
    split; [reflexivity|]. vm_compute. discriminate.
Qed.

(** C10, amended: for fewer than 64 valid candidates whose calories add up
    within an [int] and a negative budget, [exhaustive_max_protein] returns
    normally with an empty result: no candidate, not even the empty one, is
    feasible. *)
Theorem exhaustive_negative_budget foods total_kcal :
  (length foods < 64)%nat ->
  total_kcal < 0 ->
  Forall Food_valid foods ->
  kcal_total foods <= INT_MAX ->
  exhaustive_max_protein foods total_kcal = Returned []
  /\ forall m, ~ feasible foods total_kcal m.
Proof.
  intros Hn Hb Hv Hfit.
  assert (Hnone : forall m, ~ feasible foods total_kcal m).
  { intros m. unfold feasible. rewrite make_candidate_select.
    rewrite sum_food_vector_wrap. simpl.
    pose proof (select_sublist foods m) as Hs.
    pose proof (sublist_kcal_total _ _ Hs Hv).
    pose proof (kcal_total_nonneg _ (sublist_valid _ _ Hs Hv)).
    rewrite to_int_id; [lia|]. int_lia. }
  split; [|exact Hnone].
  destruct (exhaustive_returns_tracked foods total_kcal ltac:(lia))
    as (K & HK & _ & Hret).
  rewrite Hret. f_equal.
  destruct (best_upto_tracked foods total_kcal _ HK)
    as [[He _]|(m & _ & _ & Hf & _)]; [exact He|].
  now apply Hnone in Hf.
Qed.

Lemma exhaustive_negative_budget_witness :
  (length scenario < 64)%nat /\ -1 < 0
  /\ Forall Food_valid scenario /\ kcal_total scenario <= INT_MAX
  /\ exhaustive_max_protein scenario (-1) = Returned [].
Proof.
  assert (H1 : (length scenario < 64)%nat) by (simpl; lia).
  assert (H2 : -1 < 0) by lia.
  assert (H3 : kcal_total scenario <= INT_MAX) by (vm_compute; discriminate).
  split; [exact H1|]. split; [exact H2|].
  split; [exact scenario_valid|]. split; [exact H3|].
  exact (proj1 (exhaustive_negative_budget scenario (-1) H1 H2
                  scenario_valid H3)).
Defined.

(** C10 as stated fails when the calories of a candidate do not add up
    within an [int]: for two valid foods of [INT_MAX] and 1 calories and
    the budget -1, neither food alone is feasible, but the sum of the two
    wraps to [INT_MIN], which is within the budget, and both are
    returned. *)
Lemma exhaustive_negative_budget_counterexample :
  (length [tallow; crumb] < 64)%nat /\ -1 < 0
  /\ Forall Food_valid [tallow; crumb]
  /\ ~ feasible [tallow; crumb] (-1) 1
  /\ ~ feasible [tallow; crumb] (-1) 2
  /\ sum_food_vector (make_candidate [tallow; crumb] 2 3) = (INT_MIN, 2)
  /\ feasible [tallow; crumb] (-1) 3
  /\ exhaustive_max_protein [tallow; crumb] (-1)
     = Returned [tallow; crumb]
  /\ exhaustive_max_protein [tallow; crumb] (-1) <> Returned [].
Proof.
  split; [simpl; lia|]. split; [lia|].
  split; [repeat (constructor; [valid_food|]); constructor|].
  split; [vm_compute; intros H; apply H; reflexivity|].
  split; [vm_compute; intros H; apply H; reflexivity|].
  split; [reflexivity|].
  split; [vm_compute; discriminate|].
  split; [reflexivity|]. vm_compute. discriminate.
Qed.

Section Assertion.

Variables (foods : FoodVector) (total_kcal : Z).

Lemma exhaustive_assert_iff :
  exhaustive_max_protein foods total_kcal = AssertFail
  <-> 64 <= to_int (Z.of_nat (length foods)).
Proof.
  unfold exhaustive_max_protein.
  destruct (Z.ltb_spec (to_int (Z.of_nat (length foods))) 64) as [Hlt|Hge].
  - split; [|lia]. destruct (mask_loop _ _ _ _ _ _) as [[bits best]|];
      discriminate.
  - split; [intros _; assumption|reflexivity].
Qed.

(** When the assertion holds the loop ends and the function returns. *)
Lemma exhaustive_returns :
  to_int (Z.of_nat (length foods)) < 64 ->
  exists best, exhaustive_max_protein foods total_kcal = Returned best.
Proof.
  intros Hn. unfold exhaustive_max_protein.
  destruct (Z.ltb_spec (to_int (Z.of_nat (length foods))) 64); [|lia].
  destruct (mask_loop_returns foods _ total_kcal Hn) as (K & _ & _ & _ & ->).
  eauto.
Qed.

End Assertion.

(** C6: [exhaustive_max_protein] fails its assertion exactly when [n], the
    size of the candidates held in an [int], is at least 64, and returns
    normally otherwise; for every vector of at most [INT_MAX] elements [n] is
    the size, so the function fails iff the size is at least 64. *)
Theorem exhaustive_assertion foods total_kcal :
  (exhaustive_max_protein foods total_kcal = AssertFail
   <-> 64 <= to_int (Z.of_nat (length foods)))
  /\ (to_int (Z.of_nat (length foods)) < 64 ->
      exists best, exhaustive_max_protein foods total_kcal = Returned best)
  /\ (Z.of_nat (length foods) <= INT_MAX ->
      to_int (Z.of_nat (length foods)) = Z.of_nat (length foods)
      /\ (exhaustive_max_protein foods total_kcal = AssertFail
          <-> (64 <= length foods)%nat)
      /\ ((length foods < 64)%nat ->
          exists best,
            exhaustive_max_protein foods total_kcal = Returned best)).
Proof.
  split; [apply exhaustive_assert_iff|].
  split; [apply exhaustive_returns|].
  intros Hmax.
  assert (Hn : to_int (Z.of_nat (length foods)) = Z.of_nat (length foods)).
  { apply to_int_id. int_lia. }
  split; [exact Hn|]. split.
  - rewrite exhaustive_assert_iff, Hn. lia.
  - intros Hlt. apply exhaustive_returns. rewrite Hn. lia.
Qed.

(** ** Beyond 53 candidates *)

Section Rounding.

(** A mask that leaves out a food selects less protein than the whole
    vector, when every food has protein. *)
Lemma select_proper (l : FoodVector) : forall m,
  0 <= m < 2 ^ Z.of_nat (length l) - 1 ->
  Forall Food_valid l -> Forall (fun f => 0 < protein_g f) l ->
  protein_total (select m l) < protein_total l.
Proof.
  induction l as [|x l IH]; intros m Hm Hv Hp; [simpl in Hm; lia|].
  simpl length in Hm. rewrite Nat2Z.inj_succ, Z.pow_succ_r in Hm by lia.
  apply Forall_cons in Hv as [_ Hv]. apply Forall_cons in Hp as [Hx Hp].
  pose proof (Z.div2_odd m) as Hd. simpl select.
  destruct (Z.odd m); simpl in *.
  - specialize (IH (Z.div2 m) ltac:(lia) Hv Hp). lia.
  - pose proof (sublist_protein_total _ _ (select_sublist l (Z.div2 m)) Hv).
    lia.
Qed.

(** With 54 candidates the full mask [2^54 - 1] converts to the [double]
    [2^54]: the loop test fails there, or earlier. *)
Lemma exhaustive_54_masks foods total_kcal :
  length foods = 54%nat ->
  exists K,
    0 <= K <= 2 ^ 54 - 1
    /\ exhaustive_max_protein foods total_kcal
       = Returned (best_upto foods total_kcal K).
Proof.
  intros Hlen. unfold exhaustive_max_protein, best_upto. rewrite Hlen.
  change (to_int (Z.of_nat 54)) with 54. change (54 <? 64) with true.
  destruct (mask_loop_returns_upto foods 54 total_kcal (2 ^ 54 - 1)
              (mask_fuel 54))
    as (K & HK & _ & Hloop).
  - lia.
  - vm_compute. reflexivity.
  - unfold mask_fuel. lia.
  - exists K. split; [exact HK|]. cbv zeta. now rewrite Hloop.
Qed.

End Rounding.

(** For 54 candidates the enumeration stops before the full mask: with 54
    eggs and a budget that admits them all, the subset returned has less
    protein than the whole vector, which is feasible. *)
Lemma exhaustive_54_not_optimal :
  kcal_total (replicate 54 egg) <= 3888
  /\ exists best,
       exhaustive_max_protein (replicate 54 egg) 3888 = Returned best
       /\ protein_total best < protein_total (replicate 54 egg).
Proof.
  split; [vm_compute; discriminate|].
  assert (Hlen : length (replicate 54 egg) = 54%nat) by reflexivity.
  assert (Hv : Forall Food_valid (replicate 54 egg)).
  { apply Forall_replicate. valid_food. }
  assert (Hp : Forall (fun f => 0 < protein_g f) (replicate 54 egg))
    by (apply Forall_replicate; simpl; lia).
  assert (Hfit : sums_fit (replicate 54 egg))
    by (split; vm_compute; discriminate).
  destruct (exhaustive_54_masks (replicate 54 egg) 3888 Hlen)
    as (K & HK & Hret).
  exists (best_upto (replicate 54 egg) 3888 K). split; [exact Hret|].
  assert (HK' : 0 <= K <= 2 ^ Z.of_nat (length (replicate 54 egg)))
    by (rewrite Hlen; lia).
  destruct (best_upto_tracked (replicate 54 egg) 3888 K HK')
    as [[-> _]|(m & Hm & -> & _)].
  - vm_compute. reflexivity.
  - rewrite make_candidate_select. apply select_proper; auto.
    rewrite Hlen. lia.
Qed.

(** ** Further properties of the specification *)

(** The scenario of the specification: with a budget of 400 the exhaustive
    search returns items 1 and 3 (350 kcal, 30 g protein). *)
Theorem exhaustive_scenario :
  exhaustive_max_protein scenario 400 = Returned [item1; item3]
  /\ sum_food_vector [item1; item3] = (350, 30).
Proof. split; reflexivity. Qed.

(** The scenario of the specification: with a budget of 400 the greedy
    selection takes item 2 and rejects items 1 and 3 (300 kcal, 25 g
    protein, less than the optimum). *)
Theorem greedy_scenario :
  greedy_max_protein scenario 400 = [item2]
  /\ sum_food_vector [item2] = (300, 25).
Proof. split; reflexivity. Qed.

(** The result of the greedy selection has at most as many records as the
    candidates. *)
Theorem greedy_result_length foods total_kcal :
  (length (greedy_max_protein foods total_kcal) <= length foods)%nat.
Proof.
  unfold greedy_max_protein.
  pose (P := fun st : greedy_state =>
               (length (result st) + length (todo st) <= length foods)%nat).
  assert (HP : P (greedy_loop total_kcal (mkGreedy foods [] 0))).
  { apply greedy_loop_invariant.
    - intros st Hne HP. unfold P in *.
      pose proof (greedy_body_length total_kcal st Hne) as Hlen.
      unfold greedy_body in *.
      destruct (_ <=? _); simpl in *; rewrite ?length_app; simpl; lia.
    - unfold P. simpl. lia. }
  unfold P in HP. lia.
Qed.

(** Every record the greedy selection returns is a candidate or the
    placeholder its scan starts from. *)
Theorem greedy_result_candidates foods total_kcal :
  Forall (fun x => x ∈ foods \/ x = placeholder)
         (greedy_max_protein foods total_kcal).
Proof. apply Forall_forall. intros x. apply greedy_result_elements. Qed.

(** Records without calories are excluded by the filter when
    [0 <= min_kcal], whatever the limit. *)
Theorem filter_food_vector_excludes_zero source min_kcal max_kcal limit :
  Forall (fun r => 0 <= min_kcal -> kcal r <> 0)
         (filter_food_vector source min_kcal max_kcal limit).
Proof.
  eapply Forall_impl; [apply filter_food_vector_within|].
  intros r [Hlo _] Hmin. lia.
Qed.

(** An empty candidate sequence is not an error: both selectors return an
    empty result, whatever the budget. *)
Theorem empty_candidates total_kcal :
  greedy_max_protein [] total_kcal = []
  /\ exhaustive_max_protein [] total_kcal = Returned [].
Proof.
  split; [reflexivity|].
  destruct (exhaustive_returns_tracked [] total_kcal ltac:(simpl; lia))
    as (K & HK & _ & ->).
  f_equal.
  destruct (best_upto_tracked [] total_kcal K HK)
    as [[He _]|(m & Hm & _)]; [exact He|].
  simpl in HK. lia.
Qed.

(** ** The loader: fields and tildes *)

Section Strings.

Lemma string_app_nil (b : string) : (EmptyString ++ b)%string = b.
Proof. reflexivity. Qed.

Lemma string_app_cons d (a b : string) :
  (String d a ++ b)%string = String d (a ++ b)%string.
Proof. reflexivity. Qed.

Lemma string_length_app (a b : string) :
  String.length (a ++ b)%string = (String.length a + String.length b)%nat.
Proof.
  induction a as [|c a IH]; [reflexivity|].
  rewrite string_app_cons. simpl. now rewrite IH.
Qed.

Lemma string_app_assoc (a b c : string) :
  ((a ++ b) ++ c)%string = (a ++ (b ++ c))%string.
Proof.
  induction a as [|d a IH]; [reflexivity|].
  rewrite !string_app_cons. now f_equal.
Qed.

End Strings.

Section Fields.

Variable delim : ascii.

(** [getline] on a field followed by the delimiter reads the field. *)
Lemma read_until_field field rest :
  contains delim field = false ->
  read_until delim (field ++ String delim rest) = (field, rest).
Proof.
  induction field as [|c field IH].
  - intros _. rewrite string_app_nil. simpl. now rewrite Ascii.eqb_refl.
  - simpl contains. intros Hc. apply orb_false_iff in Hc as [Hc Hf].
    rewrite string_app_cons. simpl. rewrite Hc, IH by assumption.
    reflexivity.
Qed.

(** What [getline] reads holds no delimiter, and with what it leaves it
    makes up the stream. *)
Lemma read_until_spec s :
  contains delim (fst (read_until delim s)) = false
  /\ (s = (fst (read_until delim s)
           ++ String delim (snd (read_until delim s)))%string
      \/ (s = fst (read_until delim s)
          /\ snd (read_until delim s) = EmptyString)).
Proof.
  induction s as [|c s [IHc IHs]]; simpl.
  - split; [reflexivity|right; now split].
  - destruct (Ascii.eqb_spec c delim) as [->|Hne]; simpl.
    + split; [reflexivity|left; reflexivity].
    + destruct (read_until delim s) as [field rest]. simpl in *.
      split.
      * apply orb_false_iff. split; [|exact IHc].
        now apply Ascii.eqb_neq.
      * destruct IHs as [->|[-> ->]]; [left|right]; auto.
Qed.

Lemma read_until_length s :
  (String.length (snd (read_until delim s)) <= String.length s)%nat.
Proof.
  induction s as [|c s IH]; simpl; [lia|].
  destruct (Ascii.eqb c delim); simpl; [lia|].
  destruct (read_until delim s). simpl in *. lia.
Qed.

(** The fields of a stream hold no delimiter, and written back with a
    delimiter after each they give the stream, or the stream and the
    delimiter its last field lacks. *)
Lemma getline_all_spec s :
  Forall (fun field => contains delim field = false) (getline_all delim s)
  /\ (join_terminated delim (getline_all delim s) = s
      \/ join_terminated delim (getline_all delim s)
         = (s ++ String delim EmptyString)%string).
Proof.
  remember (String.length s) as k eqn:Hk. revert s Hk.
  induction k as [k IH] using lt_wf_ind. intros s ->.
  destruct s as [|c s]; simp getline_all.
  - split; [constructor|left; reflexivity].
  - pose proof (read_until_spec (String c s)) as [Hc Hs].
    pose proof (read_until_length (String c s)) as Hlen.
    remember (String c s) as t eqn:Ht.
    destruct (read_until delim t) as [field rest]. cbn [fst snd] in *.
    assert (Hlt : (String.length rest < String.length t)%nat).
    { destruct Hs as [Hs|[_ Hs]].
      - apply (f_equal String.length) in Hs.
        rewrite string_length_app in Hs. simpl in *. lia.
      - rewrite Hs, Ht. simpl. lia. }
    destruct (IH _ Hlt _ eq_refl) as [IHf IHj].
    split; [now constructor|].
    change (join_terminated delim (field :: getline_all delim rest))
      with (field ++ String delim
                       (join_terminated delim (getline_all delim rest)))%string.
    destruct Hs as [Hs|[Hs Hr]].
    + destruct IHj as [->| ->].
      * left. now rewrite <- Hs.
      * right. rewrite Hs.
        now rewrite string_app_assoc, string_app_cons.
    + right. rewrite Hr. simp getline_all. now rewrite <- Hs.
Qed.

(** Round trip: fields without delimiter, each written with a delimiter
    after it, are read back as they were. *)
Lemma getline_all_join fields :
  Forall (fun field => contains delim field = false) fields ->
  getline_all delim (join_terminated delim fields) = fields.
Proof.
  induction 1 as [|field fields Hf _ IH]; [now simp getline_all|].
  change (join_terminated delim (field :: fields))
    with (field ++ String delim (join_terminated delim fields))%string.
  destruct (field ++ String delim (join_terminated delim fields))%string
    as [|c s] eqn:Hs.
  - destruct field; discriminate Hs.
  - simp getline_all. rewrite <- Hs, read_until_field by assumption.
    cbn [fst snd]. now rewrite IH.
Qed.

End Fields.

Section Tildes.

Lemma string_get_last (t : string) c :
  String.get (String.length t) (t ++ String c EmptyString) = Some c.
Proof.
  induction t as [|d t IH]; [reflexivity|].
  rewrite string_app_cons. simpl. exact IH.
Qed.

Lemma substring_prefix (a b : string) :
  substring 0 (String.length a) (a ++ b) = a.
Proof.
  induction a as [|d a IH]; [now destruct b|].
  rewrite string_app_cons. simpl. now rewrite IH.
Qed.

(** A string that ends with [c] is what precedes its last character,
    followed by [c]. *)
Lemma string_split_last (t : string) c :
  String.get (String.length t - 1) t = Some c ->
  t = (substring 0 (String.length t - 1) t ++ String c EmptyString)%string.
Proof.
  induction t as [|d t IH]; [discriminate|].
  destruct t as [|e t].
  - simpl. intros [= ->]. reflexivity.
  - intros Hget.
    replace (String.length (String d (String e t)) - 1)%nat
      with (S (String.length (String e t) - 1)) in * by (simpl; lia).
    simpl in Hget. cbn [substring]. rewrite string_app_cons. f_equal.
    apply IH. exact Hget.
Qed.

(** What [remove_tildes] returns is not empty and stood between two
    tildes. *)
Lemma remove_tildes_some field out :
  remove_tildes field = Some out ->
  out <> EmptyString /\ field = String "~" (out ++ String "~" EmptyString).
Proof.
  unfold remove_tildes.
  destruct (Nat.ltb_spec (String.length field) 3) as [|Hlen];
    [discriminate|].
  repeat case_bool_decide; simpl; try discriminate.
  intros [= <-]. destruct field as [|c t]; [simpl in Hlen; lia|].
  match goal with H : String.get 0 _ = _ |- _ =>
    simpl in H; injection H as -> end.
  simpl in Hlen.
  match goal with H : String.get _ _ = _ |- _ => rename H into Hlast end.
  replace (String.length (String "~" t) - 1)%nat
    with (S (String.length t - 1)) in Hlast by (simpl; lia).
  simpl in Hlast.
  replace (String.length (String "~" t) - 2)%nat
    with (String.length t - 1)%nat by (simpl; lia).
  cbn [substring].
  pose proof (string_split_last t _ Hlast) as Ht.
  split; [|now rewrite <- Ht].
  intros He. rewrite He, string_app_nil in Ht.
  rewrite Ht in Hlen. simpl in Hlen. lia.
Qed.

(** A non-empty text between two tildes is returned as it is. *)
Lemma remove_tildes_quoted out :
  out <> EmptyString ->
  remove_tildes (String "~" (out ++ String "~" EmptyString)) = Some out.
Proof.
  intros Hne. unfold remove_tildes.
  assert (Hlen : String.length (String "~" (out ++ String "~" EmptyString))
                 = S (S (String.length out))).
  { simpl. rewrite string_length_app. simpl. lia. }
  rewrite Hlen.
  destruct (Nat.ltb_spec (S (S (String.length out))) 3) as [Hlt|_].
  { destruct out; [congruence|simpl in Hlt; lia]. }
  replace (S (S (String.length out)) - 1)%nat
    with (S (String.length out)) by lia.
  replace (S (S (String.length out)) - 2)%nat
    with (String.length out) by lia.
  cbn [String.get]. rewrite string_get_last.
  rewrite !bool_decide_eq_true_2 by reflexivity. simpl orb. cbv iota.
  destruct out as [|c out]; [congruence|].
  cbn [substring]. f_equal.
  apply (substring_prefix (String c out)).
Qed.

End Tildes.

(** [remove_tildes] succeeds exactly on a non-empty text between two
    tildes, and returns the text: what it returns is never empty, and
    [~~] and fields without both tildes are refused. *)
Theorem remove_tildes_spec field out :
  remove_tildes field = Some out
  <-> out <> EmptyString
      /\ field = String "~" (out ++ String "~" EmptyString).
Proof.
  split.
  - apply remove_tildes_some.
  - intros [Hne ->]. now apply remove_tildes_quoted.
Qed.

(** The fields [getline] reads from a stream hold no delimiter and, written
    back with a delimiter after each, give the stream (or the stream and
    the delimiter its last field lacks); and fields without delimiter
    written that way are read back as they were. *)
Theorem getline_all_round_trip delim :
  (forall s,
     Forall (fun field => contains delim field = false)
            (getline_all delim s)
     /\ (join_terminated delim (getline_all delim s) = s
         \/ join_terminated delim (getline_all delim s)
            = (s ++ String delim EmptyString)%string))
  /\ (forall fields,
        Forall (fun field => contains delim field = false) fields ->
        getline_all delim (join_terminated delim fields) = fields).
Proof.
  split.
  - apply getline_all_spec.
  - apply getline_all_join.
Qed.

(** ** The loader: lines and foods *)

Section Constructor.

Lemma new_Food_some d a g k p f :
  new_Food d a g k p = Some f ->
  f = mkFood d a g k p
  /\ d <> EmptyString /\ a <> EmptyString /\ 0 <= g /\ 0 <= k /\ 0 <= p.
Proof.
  unfold new_Food.
  destruct (Nat.eqb_spec (String.length d) 0) as [|Hd]; [discriminate|].
  destruct (Nat.eqb_spec (String.length a) 0) as [|Ha]; [discriminate|].
  destruct (Z.leb_spec 0 g); [|discriminate].
  destruct (Z.leb_spec 0 k); [|discriminate].
  destruct (Z.leb_spec 0 p); [|discriminate].
  simpl. intros [= <-]. repeat split; auto; intros ->; simpl in *; lia.
Qed.

Lemma new_Food_none d a g k p :
  new_Food d a g k p = None ->
  d = EmptyString \/ a = EmptyString \/ g < 0 \/ k < 0 \/ p < 0.
Proof.
  unfold new_Food.
  destruct (Nat.eqb_spec (String.length d) 0) as [Hd|];
    [intros _; left; now destruct d|].
  destruct (Nat.eqb_spec (String.length a) 0) as [Ha|];
    [intros _; right; left; now destruct a|].
  destruct (Z.leb_spec 0 g); [|intros _; lia].
  destruct (Z.leb_spec 0 k); [|intros _; lia].
  destruct (Z.leb_spec 0 p); [|intros _; lia].
  discriminate.
Qed.

End Constructor.

Section LoaderFacts.

Variable parse_mil : string -> option Z.

(** The outcome of the body, by the number of fields of the line and the
    results of the five conversions. *)
Lemma load_line_cases line result :
  ((53 < length (getline_all "^" line))%nat
   /\ load_line parse_mil line result = LoadFailure)
  \/ ((length (getline_all "^" line) < 50)%nat
      /\ load_line parse_mil line result = LoadUndefined)
  \/ exists d k p g a,
       line_fields line d k p g a
       /\ (length (getline_all "^" line) <= 53)%nat
       /\ (((remove_tildes d = None \/ remove_tildes a = None
             \/ parse_mil g = None \/ parse_mil k = None
             \/ parse_mil p = None)
            /\ load_line parse_mil line result = Loaded result)
           \/ exists description amount amount_g kcal protein_g,
                remove_tildes d = Some description
                /\ remove_tildes a = Some amount
                /\ parse_mil g = Some amount_g
                /\ parse_mil k = Some kcal
                /\ parse_mil p = Some protein_g
                /\ load_line parse_mil line result
                   = match new_Food description amount amount_g kcal
                                    protein_g with
                     | Some food => Loaded (result ++ [food])
                     | None => LoadAbort
                     end).
Proof.
  unfold load_line, line_fields.
  destruct (Nat.ltb_spec 53 (length (getline_all "^" line))) as [Hw|Hw];
    [left; now split|right].
  destruct (getline_all "^" line !! 49%nat) as [a|] eqn:H49.
  2:{ left. apply lookup_ge_None in H49. split; [lia|].
      repeat match goal with |- context [?l !! ?i] =>
        destruct (l !! i) end; reflexivity. }
  right.
  pose proof (lookup_lt_Some _ _ _ H49) as Hlen.
  destruct (lookup_lt_is_Some_2 (getline_all "^" line) 1 ltac:(lia))
    as [d H1].
  destruct (lookup_lt_is_Some_2 (getline_all "^" line) 3 ltac:(lia))
    as [k H3].
  destruct (lookup_lt_is_Some_2 (getline_all "^" line) 4 ltac:(lia))
    as [p H4].
  destruct (lookup_lt_is_Some_2 (getline_all "^" line) 48 ltac:(lia))
    as [g H48].
  rewrite H1, H3, H4, H48.
  exists d, k, p, g, a. split; [now repeat split|]. split; [exact Hw|].
  destruct (remove_tildes d) as [description|]; [|left; split; auto].
  destruct (remove_tildes a) as [amount|]; [|left; split; auto].
  destruct (parse_mil g) as [amount_g|]; [|left; split; auto].
  destruct (parse_mil k) as [kcal|]; [|left; split; auto 6].
  destruct (parse_mil p) as [protein_g|]; [|left; split; auto 6].
  right. exists description, amount, amount_g, kcal, protein_g.
  repeat split; reflexivity.
Qed.

Lemma load_lines_app l1 l2 result :
  load_lines parse_mil (l1 ++ l2) result
  = match load_lines parse_mil l1 result with
    | Loaded result' => load_lines parse_mil l2 result'
    | stop => stop
    end.
Proof.
  revert result. induction l1 as [|line l1 IH]; intros result; simpl;
    [reflexivity|].
  destruct (load_line parse_mil line result); auto.
Qed.

(** A line the body leaves a vector for adds no food or one food that
    passed the assertions of the constructor. *)
Lemma load_line_loaded line result result' :
  load_line parse_mil line result = Loaded result' ->
  result' = result
  \/ exists d a g k p,
       result' = result ++ [mkFood d a g k p]
       /\ d <> EmptyString /\ a <> EmptyString
       /\ 0 <= g /\ 0 <= k /\ 0 <= p
       /\ (exists field, parse_mil field = Some g)
       /\ (exists field, parse_mil field = Some k)
       /\ (exists field, parse_mil field = Some p).
Proof.
  intros Hl.
  destruct (load_line_cases line result)
    as [[_ H]|[[_ H]|(d & k & p & g & a & _ & _ & [[_ H]|H])]];
    try congruence.
  - left. congruence.
  - destruct H as (de & am & ag & kc & pr & _ & _ & Hg & Hk & Hp & H).
    rewrite H in Hl.
    destruct (new_Food de am ag kc pr) as [food|] eqn:Hnew; [|discriminate].
    injection Hl as <-.
    apply new_Food_some in Hnew as (-> & Hd & Ha & ? & ? & ?).
    right. exists de, am, ag, kc, pr. repeat split; eauto.
Qed.

Lemma load_lines_valid lines : forall result foods,
  (forall field z, parse_mil field = Some z -> in_range z) ->
  load_lines parse_mil lines result = Loaded foods ->
  Forall Food_valid result ->
  Forall Food_valid foods
  /\ (length foods <= length result + length lines)%nat.
Proof.
  induction lines as [|line lines IH]; intros result foods Hint Hl Hv; simpl in *.
  - injection Hl as <-. split; [exact Hv|lia].
  - destruct (load_line parse_mil line result) as [| | |result'] eqn:Hline;
      try discriminate.
    apply load_line_loaded in Hline
      as [->|(d & a & g & k & p & -> & Hd & Ha & Hg & Hk & Hp
              & [fg Hfg] & [fk Hfk] & [fp Hfp])].
    + destruct (IH _ _ Hint Hl Hv) as [Hf Hlen]. split; [exact Hf|lia].
    + apply Hint in Hfg, Hfk, Hfp.
      assert (Hv' : Forall Food_valid (result ++ [mkFood d a g k p])).
      { apply Forall_app. split; [exact Hv|]. apply Forall_singleton.
        split; simpl; auto; int_lia. }
      destruct (IH _ _ Hint Hl Hv') as [Hf Hlen]. split; [exact Hf|].
      rewrite length_app in Hlen. simpl in Hlen. lia.
Qed.

(** The body fails an assertion only on a negative number: the texts it
    passes to the constructor are never empty. *)
Lemma load_line_abort line result :
  load_line parse_mil line result = LoadAbort ->
  exists d k p g a description amount amount_g kcal protein_g,
    line_fields line d k p g a
    /\ remove_tildes d = Some description
    /\ remove_tildes a = Some amount
    /\ parse_mil g = Some amount_g
    /\ parse_mil k = Some kcal
    /\ parse_mil p = Some protein_g
    /\ (amount_g < 0 \/ kcal < 0 \/ protein_g < 0).
Proof.
  intros Hl.
  destruct (load_line_cases line result)
    as [[_ H]|[[_ H]|(d & k & p & g & a & Hf & _ & [[_ H]|H])]];
    try congruence.
  destruct H as (de & am & ag & kc & pr & Hd & Ha & Hg & Hk & Hp & H).
  rewrite H in Hl.
  destruct (new_Food de am ag kc pr) as [food|] eqn:Hnew; [discriminate|].
  exists d, k, p, g, a, de, am, ag, kc, pr.
  split; [exact Hf|]. do 5 (split; [assumption|]).
  apply new_Food_none in Hnew as [->|[->|Hneg]]; [| |exact Hneg].
  - now apply remove_tildes_some in Hd as [Hd _].
  - now apply remove_tildes_some in Ha as [Ha _].
Qed.

(** A line with its five fields that converts to a negative number fails
    an assertion of the constructor. *)
Lemma load_line_negative line result d k p g a
    description amount amount_g kcal protein_g :
  (length (getline_all "^" line) <= 53)%nat ->
  line_fields line d k p g a ->
  remove_tildes d = Some description ->
  remove_tildes a = Some amount ->
  parse_mil g = Some amount_g ->
  parse_mil k = Some kcal ->
  parse_mil p = Some protein_g ->
  amount_g < 0 \/ kcal < 0 \/ protein_g < 0 ->
  load_line parse_mil line result = LoadAbort.
Proof.
  intros Hw (H1 & H3 & H4 & H48 & H49) Hd Ha Hg Hk Hp Hneg.
  unfold load_line.
  destruct (Nat.ltb_spec 53 (length (getline_all "^" line))); [lia|].
  rewrite H1, H3, H4, H48, H49, Hd, Ha, Hg, Hk, Hp.
  destruct (new_Food description amount amount_g kcal protein_g) eqn:Hnew;
    [|reflexivity].
  apply new_Food_some in Hnew. lia.
Qed.

(** A line with its five fields, one of which does not convert, leaves the
    vector as it is. *)
Lemma load_line_skip line result d k p g a :
  (length (getline_all "^" line) <= 53)%nat ->
  line_fields line d k p g a ->
  remove_tildes d = None \/ remove_tildes a = None
  \/ parse_mil g = None \/ parse_mil k = None \/ parse_mil p = None ->
  load_line parse_mil line result = Loaded result.
Proof.
  intros Hw (H1 & H3 & H4 & H48 & H49) Hnone.
  unfold load_line.
  destruct (Nat.ltb_spec 53 (length (getline_all "^" line))); [lia|].
  rewrite H1, H3, H4, H48, H49.
  destruct (remove_tildes d); [|reflexivity].
  destruct (remove_tildes a); [|reflexivity].
  destruct (parse_mil g); [|reflexivity].
  destruct (parse_mil k); [|reflexivity].
  destruct (parse_mil p); [|reflexivity].
  destruct Hnone as [?|[?|[?|[?|?]]]]; discriminate.
Qed.

End LoaderFacts.

(** The foods of a loaded file are valid, so that the vector the loader
    returns meets the assumption under which the selectors are verified,
    and there is at most one food for each line of the file. *)
Theorem load_usda_abbrev_valid parse_mil fs path foods :
  (forall field z, parse_mil field = Some z -> in_range z) ->
  load_usda_abbrev parse_mil fs path = Loaded foods ->
  Forall Food_valid foods
  /\ exists content,
       fs !! path = Some content
       /\ (length foods <= length (getline_all "010" content))%nat.
Proof.
  intros Hint. unfold load_usda_abbrev.
  destruct (fs !! path) as [content|]; [|discriminate].
  intros Hl.
  destruct (load_lines_valid parse_mil _ _ _ Hint Hl ltac:(constructor))
    as [Hv Hlen].
  split; [exact Hv|]. exists content. split; [reflexivity|exact Hlen].
Qed.

Lemma parse_decimal_range field z :
  parse_decimal field = Some z -> in_range z.
Proof.
  assert (Hnn : forall s acc r,
             0 <= acc -> parse_digits acc s = Some r -> 0 <= r).
  { induction s as [|c s IH]; simpl; intros acc r Hacc.
    - intros [= <-]. exact Hacc.
    - destruct (Ascii.is_nat c) as [d|]; [|discriminate].
      apply IH. lia. }
  unfold parse_decimal. destruct field as [|c s]; [discriminate|].
  destruct (parse_digits 0 (String c s)) as [r|] eqn:Hr; [|discriminate].
  destruct (Z.leb_spec r INT_MAX); [|discriminate].
  intros [= <-]. apply Hnn in Hr; [int_lia|lia].
Qed.

Lemma load_usda_abbrev_valid_witness :
  (forall field z, parse_decimal field = Some z -> in_range z)
  /\ load_usda_abbrev parse_decimal sample_fs "ABBREV.txt"
     = Loaded [mkFood "BUTTER,WITH SALT" "1 pat" 5 717 1]
  /\ Forall Food_valid [mkFood "BUTTER,WITH SALT" "1 pat" 5 717 1].
Proof.
  assert (Hl : load_usda_abbrev parse_decimal sample_fs "ABBREV.txt"
               = Loaded [mkFood "BUTTER,WITH SALT" "1 pat" 5 717 1])
    by (vm_compute; reflexivity).
  split; [exact parse_decimal_range|]. split; [exact Hl|].
  exact (proj1 (load_usda_abbrev_valid parse_decimal sample_fs "ABBREV.txt"
                  _ parse_decimal_range Hl)).
Defined.

(** The loader fails an assertion of the constructor on a line exactly when
    the line has its five fields, they all convert, and one of the three
    numbers is negative: a quoted text is never empty, and such a line is
    not skipped. *)
Theorem load_line_abort_iff parse_mil line result :
  load_line parse_mil line result = LoadAbort
  <-> (length (getline_all "^" line) <= 53)%nat
      /\ exists d k p g a description amount amount_g kcal protein_g,
           line_fields line d k p g a
           /\ remove_tildes d = Some description
           /\ remove_tildes a = Some amount
           /\ parse_mil g = Some amount_g
           /\ parse_mil k = Some kcal
           /\ parse_mil p = Some protein_g
           /\ (amount_g < 0 \/ kcal < 0 \/ protein_g < 0).
Proof.
  split.
  - intros Hl. split; [|now apply (load_line_abort parse_mil line result)].
    destruct (load_line_cases parse_mil line result)
      as [[_ H]|[[_ H]|(d & k & p & g & a & _ & Hw & _)]];
      [congruence|congruence|exact Hw].
  - intros (Hw & d & k & p & g & a & de & am & ag & kc & pr
            & Hf & Hd & Ha & Hg & Hk & Hp & Hneg).
    eapply load_line_negative; eauto.
Qed.

(** A line with more than 53 fields makes the loader give up the whole file:
    after lines that have loaded, it returns [nullptr], whatever it has
    loaded and whatever lines follow; such a line is not skipped. *)
Theorem load_lines_width parse_mil l1 line l2 result result' :
  load_lines parse_mil l1 result = Loaded result' ->
  (53 < length (getline_all "^" line))%nat ->
  load_lines parse_mil (l1 ++ line :: l2) result = LoadFailure.
Proof.
  intros Hl1 Hw. rewrite load_lines_app, Hl1. simpl.
  destruct (load_line_cases parse_mil line result')
    as [[_ ->]|[[Hs _]|(d & k & p & g & a & _ & Hs & _)]];
    [reflexivity|lia|lia].
Qed.

Lemma load_lines_width_witness :
  load_lines parse_decimal [butter_line] []
  = Loaded [mkFood "BUTTER,WITH SALT" "1 pat" 5 717 1]
  /\ (53 < length (getline_all "^" wide_line))%nat
  /\ load_lines parse_decimal ([butter_line] ++ wide_line :: [butter_line])
                []
     = LoadFailure.
Proof.
  assert (Hl : load_lines parse_decimal [butter_line] []
               = Loaded [mkFood "BUTTER,WITH SALT" "1 pat" 5 717 1])
    by (vm_compute; reflexivity).
  assert (Hw : (53 < length (getline_all "^" wide_line))%nat)
    by (vm_compute; lia).
  split; [exact Hl|]. split; [exact Hw|].
  exact (load_lines_width parse_decimal [butter_line] wide_line
           [butter_line] [] _ Hl Hw).
Defined.

(** A line with its five fields and at most 53 fields in all, one of whose
    five fields does not convert (a text that is not a non-empty text
    between tildes, a number that does not read), is skipped: the loader
    behaves as if the line were not in the file. *)
Theorem load_lines_skip parse_mil l1 line l2 result d k p g a :
  (length (getline_all "^" line) <= 53)%nat ->
  line_fields line d k p g a ->
  remove_tildes d = None \/ remove_tildes a = None
  \/ parse_mil g = None \/ parse_mil k = None \/ parse_mil p = None ->
  load_lines parse_mil (l1 ++ line :: l2) result
  = load_lines parse_mil (l1 ++ l2) result.
Proof.
  intros Hw Hf Hnone. rewrite !load_lines_app.
  destruct (load_lines parse_mil l1 result) as [| | |result']; auto.
  simpl. now rewrite (load_line_skip parse_mil line result' d k p g a).
Qed.

Lemma load_lines_skip_witness :
  (length (getline_all "^" nameless_line) <= 53)%nat
  /\ line_fields nameless_line "~BUTTER,WHIPPED~" "717" "1" "5" "~~"
  /\ remove_tildes "~~" = None
  /\ load_lines parse_decimal ([butter_line] ++ nameless_line :: []) []
     = load_lines parse_decimal ([butter_line] ++ []) [].
Proof.
  assert (Hw : (length (getline_all "^" nameless_line) <= 53)%nat)
    by (vm_compute; lia).
  assert (Hf : line_fields nameless_line "~BUTTER,WHIPPED~" "717" "1" "5"
                           "~~")
    by (repeat split; vm_compute; reflexivity).
  assert (Hn : remove_tildes "~~" = None) by reflexivity.
  split; [exact Hw|]. split; [exact Hf|]. split; [exact Hn|].
  apply (load_lines_skip parse_decimal [butter_line] nameless_line [] []
           _ _ _ _ _ Hw Hf).
  right. left. exact Hn.
Defined.

(** ** The greedy selector: order of selection *)

Section ScanOrder.

Lemma scan_step_inv seen s food :
  scan_counter s = length seen ->
  scan_inv seen s -> scan_inv (seen ++ [food]) (scan_step s food).
Proof.
  intros Hc (Hmax & Hfirst & Hf).
  assert (Hnn : 0 <= protein_g (scan_f s)).
  { destruct Hf as [[-> _]|[_ ?]]; simpl; lia. }
  assert (Hidx : (scan_index s <= length seen)%nat).
  { destruct Hf as [[_ ->]|[Hl _]]; [lia|].
    apply lookup_lt_Some in Hl. lia. }
  unfold scan_step.
  destruct (Z.ltb_spec (protein_g (scan_f s)) (protein_g food)) as [Hlt|Hge];
    unfold scan_inv; simpl; repeat split.
  - intros x Hx. apply elem_of_app in Hx as [Hx|Hx].
    + specialize (Hmax x Hx). lia.
    + apply list_elem_of_singleton in Hx as ->. lia.
  - intros j x Hj Hx. rewrite lookup_app_l in Hx by lia.
    apply list_elem_of_lookup_2 in Hx. specialize (Hmax x Hx). lia.
  - right. split; [|lia]. rewrite Hc. now apply list_lookup_middle.
  - intros x Hx. apply elem_of_app in Hx as [Hx|Hx]; [now apply Hmax|].
    apply list_elem_of_singleton in Hx as ->. lia.
  - intros j x Hj Hx. rewrite lookup_app_l in Hx by lia.
    now apply (Hfirst j).
  - destruct Hf as [Hf|[Hl Hp]]; [now left|right].
    split; [|exact Hp]. now apply lookup_app_l_Some.
Qed.

Lemma scan_fold_inv l : forall seen s,
  scan_counter s = length seen ->
  scan_inv seen s -> scan_inv (seen ++ l) (fold_left scan_step l s).
Proof.
  induction l as [|x l IH]; intros seen s Hc Hinv; simpl.
  - now rewrite app_nil_r.
  - replace (seen ++ x :: l) with ((seen ++ [x]) ++ l)
      by now rewrite <- app_assoc.
    apply IH.
    + rewrite scan_step_counter, length_app. simpl. lia.
    + now apply scan_step_inv.
Qed.

Lemma scan_todo_inv l : scan_inv l (scan_todo l).
Proof.
  apply (scan_fold_inv l [] (mkScan placeholder 0 0)); [reflexivity|].
  repeat split.
  - intros x Hx. now apply elem_of_nil in Hx.
  - intros j x Hj. simpl in Hj. lia.
  - left. now split.
Qed.

End ScanOrder.

(** The scan selects the earliest food of greatest protein: no food of
    [todo] has more protein than the food selected, every food before it has
    strictly less, and the food selected is the one at [index], unless no
    food has positive protein, when the placeholder is selected with
    [index = 0]. *)
Theorem scan_todo_first_greatest todo :
  (forall x, x ∈ todo ->
     protein_g x <= protein_g (scan_f (scan_todo todo)))
  /\ (forall j x, (j < scan_index (scan_todo todo))%nat ->
        todo !! j = Some x ->
        protein_g x < protein_g (scan_f (scan_todo todo)))
  /\ ((scan_f (scan_todo todo) = placeholder
       /\ scan_index (scan_todo todo) = 0%nat
       /\ forall x, x ∈ todo -> protein_g x <= 0)
      \/ (todo !! scan_index (scan_todo todo) = Some (scan_f (scan_todo todo))
          /\ 0 < protein_g (scan_f (scan_todo todo)))).
Proof.
  destruct (scan_todo_inv todo) as (Hmax & Hfirst & Hf).
  split; [exact Hmax|]. split; [exact Hfirst|].
  destruct Hf as [[Hp Hi]|Hreal]; [left|now right].
  split; [exact Hp|]. split; [exact Hi|].
  intros x Hx. specialize (Hmax x Hx). now rewrite Hp in Hmax.
Qed.

Section GreedyOrder.

Variables (foods : FoodVector) (total_kcal : Z).

Lemma protein_ordered_snoc (l : FoodVector) f :
  protein_ordered l ->
  (forall x, x ∈ l -> protein_g f <= protein_g x) ->
  protein_ordered (l ++ [f]).
Proof.
  intros Hord Hf i j x y Hij Hx Hy.
  apply lookup_app_Some in Hy as [Hy|[Hlen Hy]].
  - pose proof (lookup_lt_Some _ _ _ Hy).
    rewrite lookup_app_l in Hx by lia. now apply (Hord i j).
  - apply list_lookup_singleton_Some in Hy as [Hj ->].
    rewrite lookup_app_l in Hx by lia.
    apply Hf. eapply list_elem_of_lookup_2, Hx.
Qed.

(** The result is in order of selection, which is by non-increasing
    protein, and no food left in [todo] has more protein than a food
    selected. *)
Lemma greedy_loop_ordered :
  protein_ordered (result (greedy_loop total_kcal (mkGreedy foods [] 0))).
Proof.
  pose (P := fun st : greedy_state =>
               protein_ordered (result st)
               /\ forall x, x ∈ result st ->
                    0 <= protein_g x
                    /\ forall y, y ∈ todo st -> protein_g y <= protein_g x).
  assert (HP : P (greedy_loop total_kcal (mkGreedy foods [] 0))).
  { apply greedy_loop_invariant.
    - intros st _ [Hord Hres].
      destruct (scan_todo_inv (todo st)) as (Hmax & _ & Hf).
      set (s := scan_todo (todo st)) in *.
      assert (Hnn : 0 <= protein_g (scan_f s)).
      { destruct Hf as [[-> _]|[_ ?]]; simpl; lia. }
      assert (Hsub : forall y, y ∈ todo (greedy_body total_kcal st) ->
                y ∈ todo st).
      { intros y. rewrite greedy_body_todo.
        apply list_elem_of_delete_inv. }
      assert (Hold : forall x, x ∈ result st ->
                0 <= protein_g x
                /\ forall y, y ∈ todo (greedy_body total_kcal st) ->
                     protein_g y <= protein_g x).
      { intros x Hx. destruct (Hres x Hx) as [H0 Hy].
        split; [exact H0|]. intros y Hy'. apply Hy, Hsub, Hy'. }
      unfold P. revert Hsub Hold. unfold greedy_body. fold s.
      destruct (_ <=? _); cbn [todo result]; intros Hsub Hold;
        [|now split].
      split.
      + apply protein_ordered_snoc; [exact Hord|].
        intros x Hx. destruct (Hres x Hx) as [H0 Hy].
        destruct Hf as [[-> _]|[Hl _]]; [simpl; lia|].
        apply Hy. eapply list_elem_of_lookup_2, Hl.
      + intros x Hx. apply elem_of_app in Hx as [Hx|Hx]; [now apply Hold|].
        apply list_elem_of_singleton in Hx as ->.
        split; [exact Hnn|]. intros y Hy. apply Hmax, Hsub, Hy.
    - split; simpl.
      + intros i j x y _ Hx. discriminate Hx.
      + intros x Hx. now apply elem_of_nil in Hx. }
  exact (proj1 HP).
Qed.

End GreedyOrder.

(** The greedy selection returns its records in order of non-increasing
    protein: a record selected later never has more protein than one
    selected before it. *)
Theorem greedy_result_ordered foods total_kcal i j x y :
  (i < j)%nat ->
  greedy_max_protein foods total_kcal !! i = Some x ->
  greedy_max_protein foods total_kcal !! j = Some y ->
  protein_g y <= protein_g x.
Proof.
  intros Hij Hx Hy.
  pose proof (greedy_loop_ordered foods total_kcal) as Hord.
  unfold greedy_max_protein in *. exact (Hord i j x y Hij Hx Hy).
Qed.

Lemma greedy_result_ordered_witness :
  (0 < 1)%nat
  /\ greedy_max_protein pantry 2500 !! 0%nat = Some oats
  /\ greedy_max_protein pantry 2500 !! 1%nat = Some egg
  /\ protein_g egg <= protein_g oats.
Proof.
  assert (H1 : (0 < 1)%nat) by lia.
  assert (H2 : greedy_max_protein pantry 2500 !! 0%nat = Some oats)
    by reflexivity.
  assert (H3 : greedy_max_protein pantry 2500 !! 1%nat = Some egg)
    by reflexivity.
  split; [exact H1|]. split; [exact H2|]. split; [exact H3|].
  exact (greedy_result_ordered pantry 2500 0 1 oats egg H1 H2 H3).
Defined.

(** ** The greedy selector against the budget and the optimum *)

Section GreedyTotals.

Lemma protein_total_delete (l : FoodVector) i x :
  l !! i = Some x -> protein_total (delete i l) + protein_g x = protein_total l.
Proof.
  revert i. induction l as [|y l IH]; intros [|i] Hi; simpl in *;
    try discriminate.
  - injection Hi as ->. lia.
  - specialize (IH _ Hi). lia.
Qed.

Lemma kcal_total_perm (l l' : FoodVector) :
  l ≡ₚ l' -> kcal_total l = kcal_total l'.
Proof. induction 1; simpl; lia. Qed.

Lemma protein_total_perm (l l' : FoodVector) :
  l ≡ₚ l' -> protein_total l = protein_total l'.
Proof. induction 1; simpl; lia. Qed.

Lemma elem_of_delete_or (l : FoodVector) i x y :
  l !! i = Some x -> y ∈ l -> y = x \/ y ∈ delete i l.
Proof.
  intros Hi Hy. apply delete_Permutation in Hi.
  rewrite Hi in Hy. apply elem_of_cons in Hy. exact Hy.
Qed.

Variables (foods : FoodVector) (total_kcal : Z).

Hypothesis foods_valid : Forall Food_valid foods.
Hypothesis kcal_fit : kcal_total foods <= INT_MAX.

(** What the loop keeps when no accumulation overflows: valid foods, exact
    calories, and a selection [picked] of candidates, each taken once, with
    the totals of the result (which may hold placeholders besides). *)
Lemma greedy_loop_picked :
  exists picked,
    picked ⊆+ foods
    /\ kcal_total (greedy_max_protein foods total_kcal) = kcal_total picked
    /\ protein_total (greedy_max_protein foods total_kcal)
       = protein_total picked.
Proof.
  unfold greedy_max_protein.
  pose (P := fun st : greedy_state =>
               exists picked,
                 picked ++ todo st ⊆+ foods
                 /\ kcal_total (result st) = kcal_total picked
                 /\ protein_total (result st) = protein_total picked).
  assert (HP : P (greedy_loop total_kcal (mkGreedy foods [] 0))).
  { apply greedy_loop_invariant.
    - intros st _ (picked & Hsub & Hk & Hp).
      assert (Hdel : picked ++ delete (scan_index (scan_todo (todo st)))
                                      (todo st) ⊆+ foods).
      { etransitivity; [|exact Hsub].
        apply submseteq_app; [reflexivity|].
        apply sublist_submseteq, sublist_delete. }
      destruct (scan_todo_spec (todo st)) as [Hph|Hl];
        unfold P, greedy_body; destruct (_ <=? _); cbn [todo result].
      + exists picked. rewrite Hph, kcal_total_app, protein_total_app.
        simpl. repeat split; [exact Hdel|lia|lia].
      + exists picked. now repeat split.
      + exists (picked ++ [scan_f (scan_todo (todo st))]).
        rewrite !kcal_total_app, !protein_total_app. simpl.
        repeat split; [|lia|lia].
        rewrite <- app_assoc. simpl.
        apply delete_Permutation in Hl. now rewrite <- Hl.
      + exists picked. now repeat split.
    - exists []. simpl. now repeat split. }
  destruct HP as (picked & Hsub & Hk & Hp).
  exists picked. repeat split; auto.
  etransitivity; [|exact Hsub]. now apply submseteq_inserts_r.
Qed.

(** When everything fits the budget, every food with protein is selected
    and no protein is lost. *)
Lemma greedy_loop_all_fit :
  kcal_total foods <= total_kcal ->
  (forall x, x ∈ foods -> 0 < protein_g x ->
     x ∈ greedy_max_protein foods total_kcal)
  /\ protein_total (greedy_max_protein foods total_kcal)
     = protein_total foods.
Proof.
  intros Hfit. unfold greedy_max_protein.
  pose (P := fun st : greedy_state =>
               Forall Food_valid (todo st)
               /\ Forall Food_valid (result st)
               /\ kcal_total (result st) + kcal_total (todo st)
                  <= kcal_total foods
               /\ result_cal st = kcal_total (result st)
               /\ (forall x, x ∈ foods -> 0 < protein_g x ->
                     x ∈ result st \/ x ∈ todo st)
               /\ protein_total (result st) + protein_total (todo st)
                  = protein_total foods).
  assert (HP : P (greedy_loop total_kcal (mkGreedy foods [] 0))).
  { apply greedy_loop_invariant.
    - intros st Hne (Htodo & Hres & Hsum & Hrc & Hin & Hprot).
      destruct (scan_todo_inv (todo st)) as (Hmax & _ & Hf).
      set (s := scan_todo (todo st)) in *.
      assert (Htodo' : Forall Food_valid (delete (scan_index s) (todo st)))
        by now apply Forall_delete.
      pose proof (kcal_total_nonneg _ Htodo').
      pose proof (kcal_total_nonneg _ Hres).
      assert (Hcase :
                Food_valid (scan_f s)
                /\ kcal_total (delete (scan_index s) (todo st))
                   + kcal (scan_f s) <= kcal_total (todo st)
                /\ protein_total (delete (scan_index s) (todo st))
                   + protein_g (scan_f s) = protein_total (todo st)
                /\ forall x, x ∈ todo st -> 0 < protein_g x ->
                     x = scan_f s \/ x ∈ delete (scan_index s) (todo st)).
      { destruct Hf as [[Hph Hi]|[Hl Hpos]].
        - rewrite Hph, Hi. split; [apply placeholder_valid|]. simpl.
          destruct (todo st) as [|y t] eqn:Ht; [congruence|]. simpl.
          apply Forall_cons in Htodo as [Hy _].
          assert (Hy0 : protein_g y <= 0).
          { specialize (Hmax y ltac:(left)). now rewrite Hph in Hmax. }
          destruct Hy as [_ _ _ ? ?].
          split; [lia|]. split; [lia|].
          intros x Hx Hpx. exfalso. specialize (Hmax x Hx).
          rewrite Hph in Hmax. simpl in Hmax. lia.
        - split.
          { eapply Forall_forall; [exact Htodo|].
            eapply list_elem_of_lookup_2, Hl. }
          pose proof (kcal_total_delete _ _ _ Hl).
          pose proof (protein_total_delete _ _ _ Hl).
          split; [lia|]. split; [lia|].
          intros x Hx _. now apply (elem_of_delete_or _ _ _ _ Hl). }
      destruct Hcase as (Hv & Hk & Hp & Hel).
      pose proof (valid_kcal _ Hv) as Hkf.
      assert (Hadd : int_add (result_cal st) (kcal (scan_f s))
                     = result_cal st + kcal (scan_f s)).
      { unfold int_add. apply to_int_id. int_lia. }
      unfold P, greedy_body. fold s. rewrite Hadd.
      destruct (Z.leb_spec (result_cal st + kcal (scan_f s)) total_kcal);
        [|lia].
      cbn [todo result result_cal].
      rewrite kcal_total_app, protein_total_app. simpl.
      split; [exact Htodo'|].
      split; [apply Forall_app; split; [exact Hres|now apply Forall_singleton]|].
      split; [lia|]. split; [lia|]. split; [|lia].
      intros x Hx Hpx. destruct (Hin x Hx Hpx) as [Hr|Ht].
      + left. apply elem_of_app. now left.
      + destruct (Hel x Ht Hpx) as [->|Hd]; [left|now right].
        apply elem_of_app. right. now apply list_elem_of_singleton.
    - unfold P. simpl. repeat split; auto; try lia; constructor. }
  destruct HP as (_ & _ & _ & _ & Hin & Hprot).
  assert (Hdone : todo (greedy_loop total_kcal (mkGreedy foods [] 0)) = []).
  { rewrite greedy_loop_iter. simpl todo.
    apply length_zero_iff_nil.
    rewrite (greedy_iter_length total_kcal (length foods)
               (mkGreedy foods [] 0)); simpl; lia. }
  rewrite Hdone in *. simpl in Hprot. split; [|lia].
  intros x Hx Hpx. destruct (Hin x Hx Hpx) as [Hr|Ht]; [exact Hr|].
  now apply elem_of_nil in Ht.
Qed.

End GreedyTotals.

(** When the calories of all the candidates fit the budget (and an [int]),
    the greedy selection loses no protein: every candidate with protein is
    in the result, whose total protein is that of all the candidates. *)
Theorem greedy_takes_all foods total_kcal :
  Forall Food_valid foods ->
  kcal_total foods <= INT_MAX ->
  kcal_total foods <= total_kcal ->
  (forall x, x ∈ foods -> 0 < protein_g x ->
     x ∈ greedy_max_protein foods total_kcal)
  /\ protein_total (greedy_max_protein foods total_kcal)
     = protein_total foods.
Proof.
  intros Hv Hfit Hall.
  destruct (greedy_loop_all_fit foods total_kcal Hv Hfit Hall) as [Hin Hp].
  split; [exact Hin|exact Hp].
Qed.

Lemma pantry_valid : Forall Food_valid pantry.
Proof. repeat (constructor; [valid_food|]). constructor. Qed.

Lemma greedy_takes_all_witness :
  Forall Food_valid pantry /\ kcal_total pantry <= INT_MAX
  /\ kcal_total pantry <= 2500
  /\ protein_total (greedy_max_protein pantry 2500) = protein_total pantry.
Proof.
  assert (H2 : kcal_total pantry <= INT_MAX) by (vm_compute; discriminate).
  assert (H3 : kcal_total pantry <= 2500) by (vm_compute; discriminate).
  split; [exact pantry_valid|]. split; [exact H2|]. split; [exact H3|].
  exact (proj2 (greedy_takes_all pantry 2500 pantry_valid H2 H3)).
Defined.

(** The exhaustive search is at least as good as the greedy selection: for
    at most 53 valid candidates whose totals fit an [int] and a non-negative
    budget, the protein of the subset it returns is at least the protein of
    the greedy result. *)
Theorem exhaustive_dominates_greedy foods total_kcal :
  (length foods <= 53)%nat ->
  0 <= total_kcal ->
  Forall Food_valid foods ->
  sums_fit foods ->
  exists best,
    exhaustive_max_protein foods total_kcal = Returned best
    /\ protein_total (greedy_max_protein foods total_kcal)
       <= protein_total best.
Proof.
  intros Hn Hb Hv Hfit.
  destruct (exhaustive_returns_tracked foods total_kcal ltac:(lia))
    as (K & HK & HKeq & Hret).
  specialize (HKeq ltac:(lia)). subst K.
  pose proof (best_upto_tracked foods total_kcal _ HK) as Ht.
  exists (best_upto foods total_kcal (2 ^ Z.of_nat (length foods))).
  split; [exact Hret|].
  destruct (greedy_loop_picked foods total_kcal)
    as (picked & Hsub & Hk & Hp).
  apply submseteq_sublist_r in Hsub as (s & Hperm & Hs).
  rewrite Hp, (protein_total_perm _ _ Hperm).
  apply (tracked_optimal foods total_kcal Hv Hfit _ s Ht Hs).
  rewrite <- (kcal_total_perm _ _ Hperm), <- Hk.
  apply greedy_result_kcal_total; [exact Hb|exact Hv|apply Hfit].
Qed.

Lemma exhaustive_dominates_greedy_witness :
  (length scenario <= 53)%nat /\ 0 <= 400
  /\ Forall Food_valid scenario /\ sums_fit scenario
  /\ exists best,
       exhaustive_max_protein scenario 400 = Returned best
       /\ protein_total (greedy_max_protein scenario 400)
          <= protein_total best.
Proof.
  assert (H1 : (length scenario <= 53)%nat) by (simpl; lia).
  assert (H2 : 0 <= 400) by lia.
  split; [exact H1|]. split; [exact H2|].
  split; [exact scenario_valid|]. split; [exact scenario_fit|].
  exact (exhaustive_dominates_greedy scenario 400 H1 H2 scenario_valid
           scenario_fit).
Defined.

(** The aggregator does not depend on the order of the records: vectors
    that are permutations of each other have the same sums, in [int]
    arithmetic. *)
Theorem sum_food_vector_permutation a b :
  a ≡ₚ b -> sum_food_vector a = sum_food_vector b.
Proof.
  intros Hperm. rewrite !sum_food_vector_wrap.
  now rewrite (kcal_total_perm _ _ Hperm), (protein_total_perm _ _ Hperm).
Qed.

Lemma sum_food_vector_permutation_witness :
  [item1; item2; item3] ≡ₚ [item3; item1; item2]
  /\ sum_food_vector [item1; item2; item3]
     = sum_food_vector [item3; item1; item2].
Proof.
  assert (H : [item1; item2; item3] ≡ₚ [item3; item1; item2]).
  { symmetry. apply (Permutation_cons_append [item1; item2] item3). }
  split; [exact H|]. exact (sum_food_vector_permutation _ _ H).
Defined.

(** ** The filter and the selectors composed *)

Section FilterTwice.

Variables min_kcal max_kcal : Z.

Lemma filter_food_vector_take source limit :
  0 <= limit <= INT_MAX ->
  filter_food_vector source min_kcal max_kcal limit
  = take (Z.to_nat limit) (filter (within_kcal min_kcal max_kcal) source).
Proof.
  intros Hl. unfold filter_food_vector.
  rewrite filter_fold_limit by (simpl; lia). simpl. f_equal. lia.
Qed.

Lemma filter_food_vector_all source limit :
  INT_MIN <= limit < 0 -> fits_vector source ->
  filter_food_vector source min_kcal max_kcal limit
  = filter (within_kcal min_kcal max_kcal) source.
Proof.
  intros Hl Hfit. unfold filter_food_vector.
  now rewrite filter_fold_unbounded by (auto; simpl; exact Hfit).
Qed.

Lemma filter_within_id (l : FoodVector) :
  Forall (within_kcal min_kcal max_kcal) l ->
  filter (within_kcal min_kcal max_kcal) l = l.
Proof.
  induction 1 as [|x l Hx _ IH]; [reflexivity|].
  now rewrite filter_cons_True, IH.
Qed.

End FilterTwice.

(** Filtering is idempotent: the filter applied, with the same bounds and
    limit, to its own output returns that output. *)
Theorem filter_food_vector_idempotent source min_kcal max_kcal limit :
  INT_MIN <= limit <= INT_MAX ->
  fits_vector source ->
  filter_food_vector
    (filter_food_vector source min_kcal max_kcal limit)
    min_kcal max_kcal limit
  = filter_food_vector source min_kcal max_kcal limit.
Proof.
  intros Hl Hfit.
  pose proof (filter_food_vector_within source min_kcal max_kcal limit) as Hw.
  destruct (Z.lt_ge_cases limit 0) as [Hneg|Hpos].
  - assert (Hfit' : fits_vector
                      (filter_food_vector source min_kcal max_kcal limit)).
    { pose proof (sublist_length _ _
                    (filter_food_vector_sublist source min_kcal max_kcal
                                                limit)) as Hs.
      pose proof (sublist_length _ _
                    (sublist_filter (within_kcal min_kcal max_kcal) source)).
      unfold fits_vector in *. lia. }
    rewrite (filter_food_vector_all _ _ _ limit) by (auto; lia).
    now apply filter_within_id.
  - rewrite (filter_food_vector_take _ _ _ limit) by lia.
    rewrite filter_within_id by exact Hw.
    rewrite (filter_food_vector_take _ _ source limit) by lia.
    rewrite take_take. f_equal. lia.
Qed.

Lemma filter_food_vector_idempotent_witness :
  INT_MIN <= 1 <= INT_MAX /\ fits_vector pantry
  /\ filter_food_vector (filter_food_vector pantry 0 2500 1) 0 2500 1
     = filter_food_vector pantry 0 2500 1.
Proof.
  assert (H1 : INT_MIN <= 1 <= INT_MAX) by (vm_compute; split; discriminate).
  assert (H2 : fits_vector pantry) by (vm_compute; discriminate).
  split; [exact H1|]. split; [exact H2|].
  exact (filter_food_vector_idempotent pantry 0 2500 1 H1 H2).
Defined.

Section Elements.

Variable Q : Food -> Prop.

Lemma make_candidate_Forall foods n bits :
  Forall Q foods -> Forall Q (make_candidate foods n bits).
Proof.
  intros Hq. unfold make_candidate.
  assert (Hfold : forall js acc, Forall Q acc ->
            Forall Q (fold_left (candidate_step foods bits) js acc)).
  { induction js as [|j js IH]; intros acc Hacc; simpl; [exact Hacc|].
    apply IH. unfold candidate_step. destruct (_ =? _); [|exact Hacc].
    destruct (foods !! j) as [food|] eqn:Hj; [|exact Hacc].
    apply Forall_app. split; [exact Hacc|]. apply Forall_singleton.
    eapply Forall_forall; [exact Hq|]. eapply list_elem_of_lookup_2, Hj. }
  apply Hfold. constructor.
Qed.

Lemma mask_body_Forall foods n total_kcal best bits :
  Forall Q foods -> Forall Q best ->
  Forall Q (mask_body foods n total_kcal best bits).
Proof.
  intros Hq Hb. unfold mask_body.
  destruct (sum_food_vector (make_candidate foods n bits)).
  destruct (sum_food_vector best).
  destruct (_ <=? _); [|exact Hb].
  destruct (_ || _); [now apply make_candidate_Forall|exact Hb].
Qed.

Lemma mask_loop_Forall foods n total_kcal fuel : forall bits best K best',
  Forall Q foods -> Forall Q best ->
  mask_loop fuel foods n total_kcal bits best = Some (K, best') ->
  Forall Q best'.
Proof.
  induction fuel as [|fuel IH]; intros bits best K best' Hq Hb; simpl;
    [discriminate|].
  destruct (bits_lt_power n bits).
  - apply IH; [exact Hq|now apply mask_body_Forall].
  - intros [= _ <-]. exact Hb.
Qed.

End Elements.

(** Valid candidates give valid results: the records the filter keeps, the
    records the greedy selection returns (its placeholder is a valid food)
    and the records the exhaustive search returns all satisfy the
    assertions of the constructor of [Food]. *)
Theorem selections_valid foods :
  Forall Food_valid foods ->
  (forall min_kcal max_kcal limit,
     Forall Food_valid (filter_food_vector foods min_kcal max_kcal limit))
  /\ (forall total_kcal,
        Forall Food_valid (greedy_max_protein foods total_kcal))
  /\ (forall total_kcal best,
        exhaustive_max_protein foods total_kcal = Returned best ->
        Forall Food_valid best).
Proof.
  intros Hv. split; [|split].
  - intros min_kcal max_kcal limit.
    eapply sublist_valid; [|exact Hv].
    etransitivity; [apply filter_food_vector_sublist|apply sublist_filter].
  - intros total_kcal. apply Forall_forall. intros x Hx.
    apply greedy_result_elements in Hx as [Hx| ->].
    + eapply Forall_forall; [exact Hv|exact Hx].
    + apply placeholder_valid.
  - intros total_kcal best. unfold exhaustive_max_protein.
    destruct (_ <? 64); [|discriminate].
    destruct (mask_loop _ _ _ _ _ _) as [[K best']|] eqn:Hloop;
      [|discriminate].
    intros [= <-].
    eapply (mask_loop_Forall Food_valid); [exact Hv| |exact Hloop].
    constructor.
Qed.

Lemma selections_valid_witness :
  Forall Food_valid pantry
  /\ Forall Food_valid (greedy_max_protein pantry 100).
Proof.
  split; [exact pantry_valid|].
  exact (proj1 (proj2 (selections_valid pantry pantry_valid)) 100).
Defined.

(** For fewer than 64 candidates the exhaustive search returns, whatever
    the budget and the records, an order-preserving sub-sequence of the
    candidates, and one that is empty or within the budget as the
    aggregator adds its calories. *)
Theorem exhaustive_result_sublist foods total_kcal :
  (length foods < 64)%nat ->
  exists best,
    exhaustive_max_protein foods total_kcal = Returned best
    /\ sublist best foods
    /\ (best <> [] -> fst (sum_food_vector best) <= total_kcal).
Proof.
  intros Hn.
  destruct (exhaustive_returns_tracked foods total_kcal ltac:(lia))
    as (K & HK & _ & Hret).
  exists (best_upto foods total_kcal K). split; [exact Hret|].
  destruct (best_upto_tracked foods total_kcal K HK)
    as [[-> _]|(m & _ & -> & Hf & _)].
  - split; [apply sublist_nil_l|congruence].
  - split; [|intros _; exact Hf].
    rewrite make_candidate_select. apply select_sublist.
Qed.

Lemma exhaustive_result_sublist_witness :
  (length scenario < 64)%nat
  /\ exists best,
       exhaustive_max_protein scenario 400 = Returned best
       /\ sublist best scenario
       /\ (best <> [] -> fst (sum_food_vector best) <= 400).
Proof.
  assert (H : (length scenario < 64)%nat) by (simpl; lia).
  split; [exact H|]. exact (exhaustive_result_sublist scenario 400 H).
Defined.

(** ** From 54 candidates on *)

Section FullMask.

(** For 54 to 63 candidates the full mask [2^n - 1] converts to the
    [double] [2^n], so that the loop test fails at it. *)
Lemma bits_lt_power_full_mask n :
  54 <= n <= 63 -> bits_lt_power n (2 ^ n - 1) = false.
Proof.
  intros Hn.
  assert (Hall : forallb (fun k => negb (bits_lt_power k (2 ^ k - 1)))
                         (seqZ 54 10) = true) by (vm_compute; reflexivity).
  rewrite forallb_forall in Hall.
  apply negb_true_iff, Hall, list_elem_of_In, elem_of_seqZ. lia.
Qed.

Lemma exhaustive_masks_short foods total_kcal :
  (54 <= length foods <= 63)%nat ->
  exists K,
    0 <= K <= 2 ^ Z.of_nat (length foods) - 1
    /\ exhaustive_max_protein foods total_kcal
       = Returned (best_upto foods total_kcal K).
Proof.
  intros Hlen. unfold exhaustive_max_protein, best_upto.
  assert (Hint : to_int (Z.of_nat (length foods)) = Z.of_nat (length foods))
    by (apply to_int_id; int_lia).
  rewrite Hint.
  destruct (Z.ltb_spec (Z.of_nat (length foods)) 64); [|lia].
  assert (Hpow : 2 ^ 54 <= 2 ^ Z.of_nat (length foods) <= 2 ^ 63)
    by (split; apply Z.pow_le_mono_r; lia).
  destruct (mask_loop_returns_upto foods (Z.of_nat (length foods))
              total_kcal (2 ^ Z.of_nat (length foods) - 1)
              (mask_fuel (Z.of_nat (length foods))))
    as (K & HK & _ & Hloop).
  - lia.
  - apply bits_lt_power_full_mask. lia.
  - unfold mask_fuel. lia.
  - exists K. split; [exact HK|]. now rewrite Hloop.
Qed.

End FullMask.

(** From 54 candidates on the search is no longer exhaustive: the loop
    test, evaluated in [double], fails at the full mask at the latest, so
    for 54 to 63 valid candidates that all have protein and all fit the
    budget, the subset returned has less protein than the whole sequence,
    which is feasible. *)
Theorem exhaustive_misses_full_mask foods total_kcal :
  (54 <= length foods <= 63)%nat ->
  Forall Food_valid foods ->
  Forall (fun f => 0 < protein_g f) foods ->
  sums_fit foods ->
  kcal_total foods <= total_kcal ->
  exists best,
    exhaustive_max_protein foods total_kcal = Returned best
    /\ protein_total best < protein_total foods.
Proof.
  intros Hlen Hv Hp Hfit Hall.
  destruct (exhaustive_masks_short foods total_kcal Hlen) as (K & HK & Hret).
  exists (best_upto foods total_kcal K). split; [exact Hret|].
  assert (Hpow : 0 < 2 ^ Z.of_nat (length foods))
    by (apply Z.pow_pos_nonneg; lia).
  destruct (best_upto_tracked foods total_kcal K ltac:(lia))
    as [[-> _]|(m & Hm & -> & _)].
  - destruct foods as [|x foods']; [simpl in Hlen; lia|].
    apply Forall_cons in Hp as [Hx Hp]. apply Forall_cons in Hv as [_ Hv].
    pose proof (protein_total_nonneg _ Hv). simpl. lia.
  - rewrite make_candidate_select. apply select_proper; auto. lia.
Qed.

Lemma exhaustive_misses_full_mask_witness :
  (54 <= length (replicate 54 egg) <= 63)%nat
  /\ kcal_total (replicate 54 egg) <= 3888
  /\ exists best,
       exhaustive_max_protein (replicate 54 egg) 3888 = Returned best
       /\ protein_total best < protein_total (replicate 54 egg).
Proof.
  assert (Hlen : (54 <= length (replicate 54 egg) <= 63)%nat)
    by (simpl; lia).
  assert (Hv : Forall Food_valid (replicate 54 egg))
    by (apply Forall_replicate; valid_food).
  assert (Hp : Forall (fun f => 0 < protein_g f) (replicate 54 egg))
    by (apply Forall_replicate; simpl; lia).
  assert (Hfit : sums_fit (replicate 54 egg))
    by (split; vm_compute; discriminate).
  assert (Hall : kcal_total (replicate 54 egg) <= 3888)
    by (vm_compute; discriminate).
  split; [exact Hlen|]. split; [exact Hall|].
  exact (exhaustive_misses_full_mask _ _ Hlen Hv Hp Hfit Hall).
Defined.

(** ** The printer *)

Section Printer.

Lemma contains_app c (a b : string) :
  contains c (a ++ b) = contains c a || contains c b.
Proof.
  induction a as [|d a IH]; [reflexivity|].
  rewrite string_app_cons. simpl. now rewrite IH, orb_assoc.
Qed.

(** The digits of a number hold no line feed. *)
Lemma put_int_one_line z : contains "010" (put_int z) = false.
Proof.
  assert (Hu : forall d, contains "010" (NilEmpty.string_of_uint d) = false)
    by (induction d; simpl; auto).
  assert (Hz : forall d, contains "010" (NilZero.string_of_uint d) = false)
    by (intros d; destruct d; try apply Hu; reflexivity).
  unfold put_int. destruct (Z.to_int z); simpl; auto.
Qed.

Lemma food_line_one_line food :
  one_line food -> contains "010" (food_line food) = false.
Proof.
  intros [Hd Ha]. unfold food_line.
  rewrite !contains_app, Hd, Ha, !put_int_one_line. reflexivity.
Qed.

Lemma total_line_one_line foods : contains "010" (total_line foods) = false.
Proof.
  unfold total_line. destruct (sum_food_vector foods).
  rewrite !contains_app, !put_int_one_line. reflexivity.
Qed.

(** The loop writes the lines of the foods, each ended by a line feed. *)
Lemma print_fold foods : forall out,
  fold_left (fun out food => (out ++ food_line food ++ String "010" "")%string)
            foods out
  = (out ++ join_terminated "010" (map food_line foods))%string.
Proof.
  induction foods as [|food foods IH]; intros out; simpl.
  - induction out as [|c out IHo]; [reflexivity|].
    rewrite string_app_cons. now f_equal.
  - rewrite IH. now rewrite !string_app_assoc.
Qed.

Lemma join_terminated_app delim (a b : list string) :
  join_terminated delim (a ++ b)
  = (join_terminated delim a ++ join_terminated delim b)%string.
Proof.
  induction a as [|x a IH]; [reflexivity|].
  simpl. rewrite IH. now rewrite string_app_assoc, string_app_cons.
Qed.

Lemma print_food_vector_join foods :
  print_food_vector foods
  = join_terminated "010" (map food_line foods ++ [total_line foods]).
Proof.
  unfold print_food_vector. rewrite print_fold, string_app_nil.
  rewrite join_terminated_app. reflexivity.
Qed.

End Printer.

(** [print_food_vector] writes one line for each food, in order, and a last
    line with the sums [sum_food_vector] returns: read back line by line,
    what it writes is these lines, provided no description or amount holds
    a line feed. *)
Theorem print_food_vector_lines foods :
  Forall one_line foods ->
  getline_all "010" (print_food_vector foods)
  = map food_line foods ++ [total_line foods]
  /\ length (getline_all "010" (print_food_vector foods))
     = S (length foods).
Proof.
  intros Hl.
  assert (Hlines : getline_all "010" (print_food_vector foods)
                   = map food_line foods ++ [total_line foods]).
  { rewrite print_food_vector_join. apply getline_all_join.
    apply Forall_app. split.
    - apply Forall_fmap. eapply Forall_impl; [exact Hl|].
      intros food. apply food_line_one_line.
    - apply Forall_singleton, total_line_one_line. }
  split; [exact Hlines|].
  rewrite Hlines, length_app, length_map. simpl. lia.
Qed.

Lemma print_food_vector_lines_witness :
  Forall one_line pantry
  /\ length (getline_all "010" (print_food_vector pantry)) = 4%nat.
Proof.
  assert (H : Forall one_line pantry)
    by (repeat (constructor; [split; reflexivity|]); constructor).
  split; [exact H|]. exact (proj2 (print_food_vector_lines pantry H)).
Defined.

(** ** The loader and the printer composed *)

Section LoadedLines.

Variable parse_mil : string -> option Z.

Lemma join_terminated_contains c delim fields :
  contains c (join_terminated delim fields) = false ->
  Forall (fun field => contains c field = false) fields.
Proof.
  induction fields as [|field fields IH]; [constructor|].
  simpl. rewrite contains_app. simpl. intros H.
  apply orb_false_iff in H as [Hf H]. apply orb_false_iff in H as [_ H].
  constructor; auto.
Qed.

(** The fields of a line hold no character that the line does not hold. *)
Lemma getline_all_contains c delim line :
  contains c line = false ->
  Forall (fun field => contains c field = false) (getline_all delim line).
Proof.
  intros Hline. destruct (getline_all_spec delim line) as [_ [Hj|Hj]].
  - apply (join_terminated_contains c delim). now rewrite Hj.
  - destruct (Ascii.eqb_spec delim c) as [->|Hne].
    + eapply Forall_impl; [apply (getline_all_spec c line)|].
      intros field Hf. exact Hf.
    + apply (join_terminated_contains c delim). rewrite Hj, contains_app.
      rewrite Hline. simpl. apply Ascii.eqb_neq in Hne. now rewrite Hne.
Qed.

Lemma remove_tildes_contains c field out :
  remove_tildes field = Some out ->
  contains c field = false -> contains c out = false.
Proof.
  intros Hr Hf. apply remove_tildes_some in Hr as [_ ->].
  simpl in Hf. apply orb_false_iff in Hf as [_ Hf].
  rewrite contains_app in Hf. now apply orb_false_iff in Hf as [Hf _].
Qed.

Lemma load_line_one_line line result result' :
  contains "010" line = false ->
  load_line parse_mil line result = Loaded result' ->
  Forall one_line result -> Forall one_line result'.
Proof.
  intros Hline Hl Hres.
  pose proof (getline_all_contains "010" "^" line Hline) as Hfields.
  destruct (load_line_cases parse_mil line result)
    as [[_ H]|[[_ H]|(d & k & p & g & a & Hf & _ & [[_ H]|H])]];
    try congruence.
  destruct H as (de & am & ag & kc & pr & Hd & Ha & _ & _ & _ & H).
  rewrite H in Hl.
  destruct (new_Food de am ag kc pr) as [food|] eqn:Hnew; [|discriminate].
  injection Hl as <-. apply new_Food_some in Hnew as [-> _].
  destruct Hf as (H1 & _ & _ & _ & H49).
  apply Forall_app. split; [exact Hres|]. apply Forall_singleton.
  split; simpl.
  - apply (remove_tildes_contains _ _ _ Hd).
    eapply (proj1 (Forall_forall _ _) Hfields), list_elem_of_lookup_2, H1.
  - apply (remove_tildes_contains _ _ _ Ha).
    eapply (proj1 (Forall_forall _ _) Hfields), list_elem_of_lookup_2, H49.
Qed.

Lemma load_lines_one_line lines : forall result foods,
  Forall (fun line => contains "010" line = false) lines ->
  load_lines parse_mil lines result = Loaded foods ->
  Forall one_line result -> Forall one_line foods.
Proof.
  induction lines as [|line lines IH]; intros result foods Hlines Hl Hres;
    simpl in Hl.
  - now injection Hl as <-.
  - apply Forall_cons in Hlines as [Hline Hlines].
    destruct (load_line parse_mil line result) as [| | |result'] eqn:Hone;
      try discriminate.
    eapply IH; [exact Hlines|exact Hl|].
    eapply load_line_one_line; eauto.
Qed.

End LoadedLines.

(** The texts of loaded foods hold no line feed, the file having been read
    line by line: so that [print_food_vector] writes the foods of a loaded
    file one to a line, and the line of the sums after them. *)
Theorem load_print_lines parse_mil fs path foods :
  load_usda_abbrev parse_mil fs path = Loaded foods ->
  Forall one_line foods
  /\ getline_all "010" (print_food_vector foods)
     = map food_line foods ++ [total_line foods].
Proof.
  unfold load_usda_abbrev.
  destruct (fs !! path) as [content|]; [|discriminate].
  intros Hl.
  assert (Hone : Forall one_line foods).
  { eapply (load_lines_one_line parse_mil); [|exact Hl|constructor].
    apply (getline_all_spec "010" content). }
  split; [exact Hone|].
  rewrite print_food_vector_join. apply getline_all_join.
  apply Forall_app. split.
  - apply Forall_fmap. eapply Forall_impl; [exact Hone|].
    intros food. apply food_line_one_line.
  - apply Forall_singleton, total_line_one_line.
Qed.

Lemma load_print_lines_witness :
  load_usda_abbrev parse_decimal sample_fs "ABBREV.txt"
  = Loaded [mkFood "BUTTER,WITH SALT" "1 pat" 5 717 1]
  /\ getline_all "010"
       (print_food_vector [mkFood "BUTTER,WITH SALT" "1 pat" 5 717 1])
     = ["BUTTER,WITH SALT (100 g where each 1 pat is 5 g) kcal=717 protein=1 g";
        "total kcal=717 total_protein=1 g"].
Proof.
  assert (Hl : load_usda_abbrev parse_decimal sample_fs "ABBREV.txt"
               = Loaded [mkFood "BUTTER,WITH SALT" "1 pat" 5 717 1])
    by (vm_compute; reflexivity).
  split; [exact Hl|].
  rewrite (proj2 (load_print_lines parse_decimal sample_fs "ABBREV.txt" _ Hl)).
  reflexivity.
Defined.

(** The filter bounds the input of the exhaustive search: with a limit from
    0 to 63 the search run on the output of the filter passes its assertion
    and returns, and what it returns is a sub-sequence of the source whose
    records are within the calorie bounds of the filter. *)
Theorem filter_bounds_exhaustive source min_kcal max_kcal limit total_kcal :
  0 <= limit < 64 ->
  exists best,
    exhaustive_max_protein
      (filter_food_vector source min_kcal max_kcal limit) total_kcal
    = Returned best
    /\ sublist best source
    /\ Forall (within_kcal min_kcal max_kcal) best.
Proof.
  intros Hl.
  set (candidates := filter_food_vector source min_kcal max_kcal limit).
  assert (Hlen : (length candidates < 64)%nat).
  { unfold candidates.
    rewrite filter_food_vector_take by int_lia. rewrite length_take. lia. }
  destruct (exhaustive_returns_tracked candidates total_kcal ltac:(lia))
    as (K & HK & _ & Hret).
  exists (best_upto candidates total_kcal K). split; [exact Hret|].
  assert (Hsub : sublist (best_upto candidates total_kcal K) candidates).
  { destruct (best_upto_tracked candidates total_kcal K HK)
      as [[-> _]|(m & _ & -> & _)]; [apply sublist_nil_l|].
    rewrite make_candidate_select. apply select_sublist. }
  split.
  - etransitivity; [exact Hsub|]. unfold candidates.
    etransitivity; [apply filter_food_vector_sublist|apply sublist_filter].
  - apply Forall_forall. intros x Hx.
    apply (elem_of_sublist _ _ _ Hx) in Hsub.
    eapply Forall_forall; [apply filter_food_vector_within|exact Hsub].
Qed.

Lemma filter_bounds_exhaustive_witness :
  0 <= 2 < 64
  /\ exists best,
       exhaustive_max_protein (filter_food_vector pantry 0 2500 2) 400
       = Returned best
       /\ sublist best pantry
       /\ Forall (within_kcal 0 2500) best.
Proof.
  assert (H : 0 <= 2 < 64) by lia.
  split; [exact H|]. exact (filter_bounds_exhaustive pantry 0 2500 2 400 H).
Defined.
